(** * mkdocs-extrafiles: the path expander and its three hooks

    A shallow embedding of [mkdocs_extrafiles/plugin.py].  The plugin
    is glue code between three libraries: Python's [str] methods,
    [pathlib]/[glob] and the MkDocs host objects ([Files], [File],
    [LiveReloadServer]).  The development therefore has four layers:

    - [PyStr]: the [str] methods the plugin calls;
    - [PurePosixPath]: the lexical part of [pathlib] (POSIX flavour, the
      one the test-suite runs on);
    - [Host]: what the operating system answers ([Path.resolve],
      [Path.exists], [Path.is_file], [glob]), first as an interface and
      then as a concrete directory tree ([PosixFS]);
    - the plugin itself: [_expand_items] (a generator), [on_config],
      [on_files] and [on_serve]. *)

From Stdlib Require Import Ascii.
From stdpp Require Import base option list strings gmap.

(** The two separators the plugin knows.  The backslash is written by
    its code point. *)
Definition slash : ascii := "/"%char.
Definition backslash : ascii := "092"%char.

(** ** Python [str] methods *)

Module PyStr.

(** A one-character string. *)
Definition chr (c : ascii) : string := String c "".

Definition eqb (s t : string) : bool := bool_decide (s = t).

(** [ch in s] for a one-character [ch]. *)
Fixpoint contains (ch : ascii) (s : string) : bool :=
  match s with
  | EmptyString => false
  | String a s' => bool_decide (a = ch) || contains ch s'
  end.

(** [s.startswith(p)] *)
Fixpoint startswith (s p : string) {struct p} : bool :=
  match p, s with
  | EmptyString, _ => true
  | String _ _, EmptyString => false
  | String b p', String a s' => bool_decide (a = b) && startswith s' p'
  end.

(** [s.endswith(p)] *)
Fixpoint endswith (s p : string) : bool :=
  eqb s p ||
  match s with
  | EmptyString => false
  | String _ s' => endswith s' p
  end.

(** [s.endswith((p1, p2, ...))]: a tuple of suffixes. *)
Definition endswith_any (s : string) (ps : list string) : bool :=
  existsb (endswith s) ps.

(** [s.rstrip(chars)]: drop the longest suffix made of [chars]. *)
Fixpoint rstrip (chars : list ascii) (s : string) : string :=
  match s with
  | EmptyString => EmptyString
  | String a s' =>
      match rstrip chars s' with
      | EmptyString =>
          if bool_decide (a ∈ chars) then EmptyString else String a EmptyString
      | r => String a r
      end
  end.

(** [s.replace(old, new)] for one-character [old] and [new]. *)
Fixpoint replace (old new : ascii) (s : string) : string :=
  match s with
  | EmptyString => EmptyString
  | String a s' =>
      String (if bool_decide (a = old) then new else a) (replace old new s')
  end.

(** [s.split(sep)] for a one-character [sep]; never the empty list. *)
Fixpoint split (sep : ascii) (s : string) : list string :=
  match s with
  | EmptyString => [EmptyString]
  | String a s' =>
      if bool_decide (a = sep) then EmptyString :: split sep s'
      else match split sep s' with
           | [] => [chr a]
           | w :: ws => String a w :: ws
           end
  end.

(** [sep.join(parts)] *)
Fixpoint join (sep : string) (parts : list string) : string :=
  match parts with
  | [] => EmptyString
  | [w] => w
  | w :: ws => w +:+ sep +:+ join sep ws
  end.

(** [s[1:]] *)
Definition drop1 (s : string) : string :=
  match s with
  | EmptyString => EmptyString
  | String _ s' => s'
  end.

End PyStr.

(** ** [pathlib.PurePosixPath]

    Since CPython 3.12 a pure path keeps the string it was built from
    and parses it on demand; [Path] on a POSIX system has the same
    lexical behaviour. *)

Module PurePosixPath.

Record t := Path { raw : string }.

(** [posixpath.splitroot]: the root is empty, one slash, or exactly
    two slashes (three or more collapse to one). *)
Definition splitroot (p : string) : string * string :=
  let p1 := PyStr.drop1 p in
  let p2 := PyStr.drop1 p1 in
  if negb (PyStr.startswith p "/") then ("", p)
  else if negb (PyStr.startswith p1 "/") || PyStr.startswith p2 "/" then ("/", p1)
  else ("//", p2).

(** A path component kept by the parser: non-empty and not [.]. *)
Definition kept (x : string) : bool :=
  negb (PyStr.eqb x "") && negb (PyStr.eqb x ".").

(** [_parse_path]: root and tail. *)
Definition parse (p : string) : string * list string :=
  let '(root, rel) := splitroot p in
  (root, filter (λ x, Is_true (kept x)) (PyStr.split slash rel)).

(** [_format_parsed_parts] (the drive is always empty on POSIX). *)
Definition format_parsed_parts (root : string) (tail : list string) : string :=
  root +:+ PyStr.join "/" tail.

(** [__str__]: [_format_parsed_parts(...) or '.']. *)
Definition format (root : string) (tail : list string) : string :=
  match format_parsed_parts root tail with
  | EmptyString => "."
  | s => s
  end.

(** [str(p)] and [p.as_posix()] coincide on POSIX. *)
Definition str (p : t) : string :=
  let '(root, tail) := parse (raw p) in format root tail.
Definition as_posix (p : t) : string := str p.

(** [p.is_absolute()] *)
Definition is_absolute (p : t) : bool := PyStr.startswith (raw p) "/".

(** [p.name]: the last component of the tail, or the empty string. *)
Definition name (p : t) : string := List.last (snd (parse (raw p))) "".

(** [p.parent]: the path itself when the tail is empty. *)
Definition parent (p : t) : t :=
  let '(root, tail) := parse (raw p) in
  match tail with
  | [] => p
  | _ => Path (format_parsed_parts root (removelast tail))
  end.

(** [posixpath.join(a, b)] *)
Definition posix_join (a b : string) : string :=
  if PyStr.startswith b "/" then b
  else if PyStr.eqb a "" || PyStr.endswith a "/" then a +:+ b
  else a +:+ "/" +:+ b.

(** [p / key] *)
Definition truediv (p : t) (key : string) : t := Path (posix_join (raw p) key).

End PurePosixPath.

Abbreviation Path := PurePosixPath.Path.
Infix "</>" := PurePosixPath.truediv (at level 40, left associativity).

(** ** Exceptions and generators *)

(** The exception classes that occur.  All of them derive from
    [Exception]; asynchronous signals ([KeyboardInterrupt] and the like)
    are outside the model.  [HostError] stands for whatever a host
    object raises (an [OSError] from the file watcher, the
    [RuntimeError] of a misbehaving expansion), named by its class. *)
Inductive exc_class :=
  | ValueError
  | FileNotFoundError
  | AttributeError
  | HostError (cls : string).

(** An exception: its class and the value its message is formatted
    from (the message text itself is not modelled). *)
Record exn := Exn { exn_class : exc_class; exn_arg : string }.

(** The result of a call: a return value or a raised exception. *)
Inductive outcome (A : Type) :=
  | Returned (a : A)
  | Raised (e : exn).
Arguments Returned {A} a.
Arguments Raised {A} e.

(** A finite generator, seen from its consumer: it yields, stops, or
    raises while computing its next element.  [_expand_items] only
    reads the file system, so its body can be laid out ahead of its
    consumer. *)
Inductive gen (A : Type) :=
  | Yield (a : A) (k : gen A)
  | Stop
  | Throw (e : exn).
Arguments Yield {A} a k.
Arguments Stop {A}.
Arguments Throw {A} e.

(** [for a in l: yield a], followed by [k]. *)
Fixpoint yield_all {A} (l : list A) (k : gen A) : gen A :=
  match l with
  | [] => k
  | a :: l' => Yield a (yield_all l' k)
  end.

(** The elements yielded before the generator stops or raises. *)
Fixpoint yielded {A} (g : gen A) : list A :=
  match g with
  | Yield a k => a :: yielded k
  | Stop | Throw _ => []
  end.

(** How the generator ends: [None] for [StopIteration]. *)
Fixpoint raised {A} (g : gen A) : option exn :=
  match g with
  | Yield _ k => raised k
  | Stop => None
  | Throw e => Some e
  end.

(** [list(g)] *)
Definition to_list {A} (g : gen A) : outcome (list A) :=
  match raised g with
  | None => Returned (yielded g)
  | Some e => Raised e
  end.

(** ** The operating system, as the plugin sees it *)

Record Host := {
  (** [Path.cwd()] *)
  cwd : string;
  (** [os.path.realpath(p)], behind [Path.resolve()] *)
  realpath : string → string;
  (** [Path.exists()] *)
  path_exists : string → bool;
  (** [Path.is_file()] *)
  path_is_file : string → bool;
  (** [glob.glob(pattern, recursive=True)] *)
  glob : string → list string;
}.

Section HostPaths.
Context (h : Host).

(** [p.resolve()] *)
Definition resolve (p : PurePosixPath.t) : PurePosixPath.t :=
  Path (realpath h (PurePosixPath.str p)).
(** [p.exists()] *)
Definition exists_ (p : PurePosixPath.t) : bool :=
  path_exists h (PurePosixPath.str p).
(** [p.is_file()] *)
Definition is_file (p : PurePosixPath.t) : bool :=
  path_is_file h (PurePosixPath.str p).
End HostPaths.

(** ** The plugin *)

(** One element of the [files] option: a Mapping Entry. *)
Record Item := { src : string; dest : string }.

Record PluginConfig := { enabled : bool; files : list Item }.

(** The plugin instance.  [config_dir] is an attribute that does not
    exist until [on_config] (or a test) sets it. *)
Record ExtraFilesPlugin := {
  config : PluginConfig;
  config_dir : option PurePosixPath.t;
}.

(** [self.plugin_enabled] *)
Definition plugin_enabled (self : ExtraFilesPlugin) : bool :=
  enabled (config self).

(** [any(ch in src for ch in ["*", "?", "["])] *)
Definition has_glob_char (s : string) : bool :=
  existsb (λ ch, PyStr.contains ch s) ["*"; "?"; "["]%char.

(** An Expanded Pair: the resolved source and the destination URI. *)
Definition Pair : Type := PurePosixPath.t * string.

Section Expand.
Context (self : ExtraFilesPlugin) (h : Host).

(** Reading [self.config_dir]. *)
Definition get_config_dir : outcome PurePosixPath.t :=
  match config_dir self with
  | Some d => Returned d
  | None => Raised (Exn AttributeError "config_dir")
  end.

(** Lines 98-100: the pattern handed to [glob]. *)
Definition glob_pattern (src : string) : outcome string :=
  if PurePosixPath.is_absolute (Path src) then Returned src
  else match get_config_dir with
       | Returned d => Returned (PurePosixPath.str (resolve h (d </> src)))
       | Raised e => Raised e
       end.

(** Lines 101-106: the pairs of one glob entry. *)
Definition glob_pairs (pattern dest : string) : list Pair :=
  let matched := map (λ p, resolve h (Path p)) (glob h pattern) in
  flat_map (λ s,
    if is_file h s then
      let rel_name := PurePosixPath.name s in
      let dest_uri := Path (PyStr.rstrip [slash; backslash] dest) </> rel_name in
      [(s, PurePosixPath.as_posix dest_uri)]
    else []) matched.

(** Lines 108-113: the pair of one literal entry. *)
Definition literal_pair (src dest : string) : outcome Pair :=
  let s := Path src in
  let joined :=
    if PurePosixPath.is_absolute s then Returned s
    else match get_config_dir with
         | Returned d => Returned (d </> PurePosixPath.raw s)
         | Raised e => Raised e
         end in
  match joined with
  | Raised e => Raised e
  | Returned s =>
      let s := resolve h s in
      let dest_uri := PurePosixPath.as_posix (Path (PyStr.replace backslash slash dest)) in
      Returned (s, dest_uri)
  end.

(** The loop of [_expand_items] over the remaining items. *)
Fixpoint expand_from (items : list Item) : gen Pair :=
  match items with
  | [] => Stop
  | item :: rest =>
      let src := src item in
      let dest := dest item in
      if PurePosixPath.is_absolute (Path dest) then
        Throw (Exn ValueError dest)
      else if has_glob_char src then
        if negb (PyStr.endswith_any dest ["/"; PyStr.chr backslash]) then
          Throw (Exn ValueError src)
        else
          match glob_pattern src with
          | Raised e => Throw e
          | Returned pattern => yield_all (glob_pairs pattern dest) (expand_from rest)
          end
      else
        match literal_pair src dest with
        | Raised e => Throw e
        | Returned pr => Yield pr (expand_from rest)
        end
  end.

Definition _expand_items : gen Pair := expand_from (files (config self)).
End Expand.

(** ** A concrete operating system: a directory tree without symbolic links

    [fnmatch], [glob] and [os.path.realpath] as CPython 3.12 implements
    them on POSIX, over a tree of directories and regular files.  File
    names are byte strings; a directory lists its entries in the order
    of the tree, where a real directory lists them in an order of its
    own, so only the set of the results is meaningful. *)

Module PosixFS.

#[local] Unset Elimination Schemes.
Inductive node :=
  | RegularFile
  | Directory (entries : list (string * node)).
#[local] Set Elimination Schemes.

Definition entries_of (n : node) : option (list (string * node)) :=
  match n with
  | RegularFile => None
  | Directory es => Some es
  end.

Fixpoint child (name : string) (es : list (string * node)) : option node :=
  match es with
  | [] => None
  | (n, c) :: es' => if PyStr.eqb n name then Some c else child name es'
  end.

(** Path resolution by the kernel: [stack] holds the ancestors of
    [cur], nearest first.  An empty component or [.] stays in a
    directory, [..] goes up and stays at the root. *)
Fixpoint walk (stack : list node) (cur : node) (comps : list string) : option node :=
  match comps with
  | [] => Some cur
  | c :: comps' =>
      match entries_of cur with
      | None => None
      | Some es =>
          if PyStr.eqb c "" || PyStr.eqb c "." then walk stack cur comps'
          else if PyStr.eqb c ".." then
            match stack with
            | [] => walk [] cur comps'
            | up :: stack' => walk stack' up comps'
            end
          else match child c es with
               | None => None
               | Some n => walk (cur :: stack) n comps'
               end
      end
  end.

(** [os.path.split] *)
Fixpoint split_at_last_slash (p : string) : string * string :=
  match p with
  | EmptyString => ("", "")
  | String a p' =>
      let '(hd, tl) := split_at_last_slash p' in
      if negb (PyStr.eqb hd "") then (String a hd, tl)
      else if bool_decide (a = slash) then (PyStr.chr a, tl)
      else ("", String a tl)
  end.
Definition rstrip_unless_all_slashes (hd : string) : string :=
  match PyStr.rstrip [slash] hd with
  | EmptyString => hd
  | r => r
  end.
Definition os_path_split (p : string) : string * string :=
  let '(hd, tl) := split_at_last_slash p in (rstrip_unless_all_slashes hd, tl).

(** *** [fnmatch] *)

Inductive token :=
  | TStar
  | TQuestion
  | TSet (negated : bool) (ranges : list (ascii * ascii))
  | TChar (c : ascii).

(** The items of a bracket expression: [x-y] is a range when the
    hyphen is neither first nor last, anything else stands for itself. *)
Fixpoint set_items (body : list ascii) : list (ascii * ascii) :=
  match body with
  | [] => []
  | x :: rest =>
      match rest with
      | h :: y :: rest' =>
          if bool_decide (h = "-"%char) then (x, y) :: set_items rest'
          else (x, x) :: set_items rest
      | _ => (x, x) :: set_items rest
      end
  end.

(** The text of a bracket expression up to its closing bracket. *)
Fixpoint until_close (s : string) : option (list ascii) :=
  match s with
  | EmptyString => None
  | String a rest =>
      if bool_decide (a = "]"%char) then Some []
      else cons a <$> until_close rest
  end.

(** The bracket expression that starts after a [[]: its token and the
    number of characters it takes, closing bracket included.  A
    leading [!] negates, and a closing bracket that comes first
    belongs to the set.  [None] when the bracket is never closed. *)
Definition bracket (s : string) : option (token * nat) :=
  let '(negated, s1) :=
    match s with
    | String a s' => if bool_decide (a = "!"%char) then (true, s') else (false, s)
    | _ => (false, s)
    end in
  let body :=
    match s1 with
    | String a s' =>
        if bool_decide (a = "]"%char) then cons a <$> until_close s'
        else until_close s1
    | _ => None
    end in
  (λ body, (TSet negated (set_items body),
            (if negated then 1 else 0) + length body + 1)) <$> body.

(** [fnmatch.translate], to tokens instead of a regular expression;
    [skip] counts the characters already taken by a bracket
    expression. *)
Fixpoint translate_from (skip : nat) (pat : string) : list token :=
  match pat with
  | EmptyString => []
  | String c rest =>
      match skip with
      | S skip' => translate_from skip' rest
      | O =>
          if bool_decide (c = "*"%char) then TStar :: translate_from 0 rest
          else if bool_decide (c = "?"%char) then TQuestion :: translate_from 0 rest
          else if bool_decide (c = "["%char) then
            match bracket rest with
            | None => TChar c :: translate_from 0 rest
            | Some (t, taken) => t :: translate_from taken rest
            end
          else TChar c :: translate_from 0 rest
      end
  end.
Definition translate (pat : string) : list token := translate_from 0 pat.

Definition in_range (c : ascii) (r : ascii * ascii) : bool :=
  (nat_of_ascii (fst r) <=? nat_of_ascii c) && (nat_of_ascii c <=? nat_of_ascii (snd r)).

Definition token_accepts (t : token) (c : ascii) : bool :=
  match t with
  | TStar | TQuestion => true
  | TSet negated ranges => xorb negated (existsb (in_range c) ranges)
  | TChar c' => bool_decide (c = c')
  end.

Fixpoint tokens_match (ts : list token) (s : string) : bool :=
  match ts with
  | [] => PyStr.eqb s ""
  | TStar :: ts' =>
      (fix star (s : string) : bool :=
         tokens_match ts' s ||
         match s with
         | EmptyString => false
         | String _ s' => star s'
         end) s
  | t :: ts' =>
      match s with
      | EmptyString => false
      | String c s' => token_accepts t c && tokens_match ts' s'
      end
  end.

(** [fnmatch.fnmatchcase(name, pat)] *)
Definition fnmatch (name pat : string) : bool :=
  tokens_match (translate pat) name.

(** *** The tree as an operating system *)

Record fs := { fs_root : list (string * node); fs_cwd : string }.

Section WithFS.
Context (t : fs).

(** [os.lstat(p)]: the node at [p], if any.  The empty path names
    nothing. *)
Definition lstat (p : string) : option node :=
  if PyStr.eqb p "" then None
  else
    let abs := if PyStr.startswith p "/" then p else fs_cwd t +:+ "/" +:+ p in
    walk [] (Directory (fs_root t)) (PyStr.split slash abs).

Definition lexists (p : string) : bool := bool_decide (is_Some (lstat p)).
Definition isfile (p : string) : bool :=
  match lstat p with Some RegularFile => true | _ => false end.
Definition isdir (p : string) : bool :=
  match lstat p with Some (Directory _) => true | _ => false end.

(** [os.path.realpath(p)]: without symbolic links it is lexical. *)
Fixpoint normalize (stack : list string) (comps : list string) : list string :=
  match comps with
  | [] => rev stack
  | c :: comps' =>
      if PyStr.eqb c "" || PyStr.eqb c "." then normalize stack comps'
      else if PyStr.eqb c ".." then normalize (tail stack) comps'
      else normalize (c :: stack) comps'
  end.
Definition os_realpath (p : string) : string :=
  let abs := if PyStr.startswith p "/" then p else fs_cwd t +:+ "/" +:+ p in
  "/" +:+ PyStr.join "/" (normalize [] (PyStr.split slash abs)).

(** *** [glob] *)

Definition has_magic (s : string) : bool :=
  existsb (λ ch, PyStr.contains ch s) ["*"; "?"; "["]%char.
Definition _ishidden (name : string) : bool := PyStr.startswith name ".".
Definition _isrecursive (pattern : string) : bool := PyStr.eqb pattern "**".
Definition node_is_dir (n : node) : bool :=
  match n with Directory _ => true | RegularFile => false end.

(** [_listdir(dirname, dironly)]: nothing when [dirname] is not a
    directory; the empty [dirname] is the current directory. *)
Definition _listdir (dirname : string) (dironly : bool) : list string :=
  match lstat (if PyStr.eqb dirname "" then "." else dirname) with
  | Some (Directory es) =>
      map fst (List.filter (λ e, negb dironly || node_is_dir (snd e)) es)
  | _ => []
  end.

(** [_rlistdir], by recursion on the tree under [dirname]. *)
Fixpoint rlist (dironly : bool) (n : node) : list string :=
  match n with
  | RegularFile => []
  | Directory es =>
      (fix go (es : list (string * node)) : list string :=
         match es with
         | [] => []
         | (x, c) :: es' =>
             if (negb dironly || node_is_dir c) && negb (_ishidden x)
             then x :: map (PurePosixPath.posix_join x) (rlist dironly c) ++ go es'
             else go es'
         end) es
  end.
Definition _rlistdir (dirname : string) (dironly : bool) : list string :=
  match lstat (if PyStr.eqb dirname "" then "." else dirname) with
  | Some n => rlist dironly n
  | None => []
  end.

Definition _glob0 (dirname basename : string) : list string :=
  if negb (PyStr.eqb basename "") then
    if lexists (PurePosixPath.posix_join dirname basename) then [basename] else []
  else if isdir dirname then [basename] else [].

Definition _glob1 (dirname pattern : string) (dironly : bool) : list string :=
  let names := _listdir dirname dironly in
  let names :=
    if negb (_ishidden pattern) then List.filter (λ x, negb (_ishidden x)) names
    else names in
  List.filter (λ x, fnmatch x pattern) names.

Definition _glob2 (dirname : string) (dironly : bool) : list string :=
  (if PyStr.eqb dirname "" || isdir dirname then [""] else [])
  ++ _rlistdir dirname dironly.

Definition glob_in_dir (dirname basename : string) (dironly : bool) : list string :=
  if has_magic basename then
    if _isrecursive basename then _glob2 dirname dironly
    else _glob1 dirname basename dironly
  else _glob0 dirname basename.

(** [_iglob] descends through [os.path.split] until the directory
    part has no magic; here the components after that directory are
    matched from left to right, which visits the same directories in
    the same order.  All components but the last match directories
    only. *)
Fixpoint glob_components (dirs : list string) (comps : list string) : list string :=
  match comps with
  | [] => dirs
  | c :: comps' =>
      let dironly := bool_decide (comps' ≠ []) in
      glob_components
        (flat_map (λ d, map (PurePosixPath.posix_join d) (glob_in_dir d c dironly)) dirs)
        comps'
  end.

(** The directory without magic a pattern starts with, and the
    components that follow it: empty components vanish, except that
    a trailing slash leaves one at the end. *)
Fixpoint literal_prefix (comps : list string) : list string * list string :=
  match comps with
  | [] => ([], [])
  | c :: comps' =>
      if has_magic c then ([], comps)
      else let '(lit, rest) := literal_prefix comps' in (c :: lit, rest)
  end.
Definition magic_components (rest : list string) : list string :=
  List.filter (λ c, negb (PyStr.eqb c "")) rest
  ++ (if PyStr.eqb (List.last rest "x") "" then [""] else []).
Definition literal_dirname (lit : list string) : string :=
  match lit with
  | [] => ""
  | _ => rstrip_unless_all_slashes (PyStr.join "/" lit +:+ "/")
  end.

(** [glob.glob(pathname, recursive=True)] *)
Definition py_glob (pathname : string) : list string :=
  if negb (has_magic pathname) then
    let '(dirname, basename) := os_path_split pathname in
    if negb (PyStr.eqb basename "") then
      if lexists pathname then [pathname] else []
    else if isdir dirname then [pathname] else []
  else
    let '(lit, rest) := literal_prefix (PyStr.split slash pathname) in
    let found := glob_components [literal_dirname lit] (magic_components rest) in
    if PyStr.startswith pathname "**" then
      match found with
      | EmptyString :: found' => found'
      | _ => found
      end
    else found.

(** The tree as a [Host]. *)
Definition host : Host := {|
  cwd := fs_cwd t;
  realpath := os_realpath;
  path_exists := lexists;
  path_is_file := isfile;
  glob := py_glob;
|}.
End WithFS.

End PosixFS.

(** ** The MkDocs host objects (MkDocs 1.6) *)

Module MkDocs.

(** [MkDocsConfig], as far as the plugin reads it.
    [config_file_path] is [None] when the attribute is missing or
    holds [None]; [current_plugin] is [config.plugins._current_plugin]. *)
Record MkDocsConfig := {
  docs_dir : string;
  config_file_path : option string;
  site_dir : string;
  use_directory_urls : bool;
  current_plugin : option string;
}.

(** A [File] object.  [file_oid] is its identity ([id(f)]); nothing
    below mutates a [File] after it is built. *)
Record File := {
  file_oid : nat;
  src_uri : string;
  abs_src_path : option string;
  dest_dir : string;
  directory_urls : bool;
  generated_by : option string;
}.

(** A [Files] collection: [_src_uris], a dict from [src_uri] to
    [File]. *)
Record Files := { files_oid : nat; _src_uris : gmap string File }.

(** [PurePath(path).as_posix()], the key a path is filed under. *)
Definition uri_of (path : string) : string :=
  PurePosixPath.as_posix (Path path).

(** [files.get_file_from_path(path)] *)
Definition get_file_from_path (files : Files) (path : string) : option File :=
  _src_uris files !! uri_of path.

(** [files.remove(file)]: [ValueError] when [file.src_uri] is not a
    key. *)
Definition remove (files : Files) (file : File) : outcome Files :=
  match _src_uris files !! src_uri file with
  | Some _ =>
      Returned {| files_oid := files_oid files;
                  _src_uris := delete (src_uri file) (_src_uris files) |}
  | None => Raised (Exn ValueError (src_uri file))
  end.

(** [files.append(file)]: an entry with the same [src_uri] is
    replaced (with a deprecation warning). *)
Definition append (files : Files) (file : File) : Files :=
  {| files_oid := files_oid files;
     _src_uris := <[src_uri file := file]> (_src_uris files) |}.

(** [File.generated(config, src_uri, abs_src_path=...)], allocated
    at [oid]. *)
Definition generated (config : MkDocsConfig) (uri abs_src : string) (oid : nat) : File :=
  {| file_oid := oid;
     src_uri := uri_of uri;
     abs_src_path := Some abs_src;
     dest_dir := site_dir config;
     directory_urls := use_directory_urls config;
     generated_by := Some (default "<unknown>" (current_plugin config)) |}.

(** A [LiveReloadServer], reduced to the paths registered with it, in
    the order of the calls.  [refuses] is the observer behind it,
    which may fail to schedule a path. *)
Record LiveReloadServer := {
  server_oid : nat;
  watched : list string;
  refuses : string → option exn;
}.

(** [server.watch(path)] *)
Definition watch (server : LiveReloadServer) (path : string)
  : LiveReloadServer * outcome unit :=
  match refuses server path with
  | Some e => (server, Raised e)
  | None =>
      ({| server_oid := server_oid server;
          watched := watched server ++ [path];
          refuses := refuses server |}, Returned tt)
  end.

End MkDocs.

Import MkDocs.

(** ** The hooks *)

(** What a hook can change besides the plugin: the collection it was
    handed, and the next free object identity. *)
Record Heap := { collection : Files; next_oid : nat }.

Section Hooks.
Context (h : Host).

(** [on_config]: the plugin afterwards, and the result. *)
Definition on_config (self : ExtraFilesPlugin) (cfg : MkDocsConfig)
  : ExtraFilesPlugin * outcome MkDocsConfig :=
  if negb (plugin_enabled self) then (self, Returned cfg)
  else
    let docs_dir := resolve h (Path (docs_dir cfg)) in
    let dir :=
      match config_file_path cfg with
      | Some config_path =>
          if PyStr.eqb config_path "" then Path (cwd h)
          else PurePosixPath.parent (resolve h (Path config_path))
      | None => Path (cwd h)
      end in
    ({| config := config self; config_dir := Some dir |}, Returned cfg).

(** The body of the loop of [on_files], lines 118-127, for one pair. *)
Definition stage_pair (cfg : MkDocsConfig) (pr : Pair) (hp : Heap) : Heap * outcome unit :=
  let '(src, dest_uri) := pr in
  if negb (exists_ h src) then
    (hp, Raised (Exn FileNotFoundError (PurePosixPath.str src)))
  else
    let files := collection hp in
    let removed :=
      match get_file_from_path files dest_uri with
      | Some existing => remove files existing
      | None => Returned files
      end in
    match removed with
    | Raised e => (hp, Raised e)
    | Returned files =>
        let generated :=
          generated cfg dest_uri (PurePosixPath.str src) (next_oid hp) in
        ({| collection := append files generated; next_oid := S (next_oid hp) |},
         Returned tt)
    end.

(** The [for] loop of [on_files] over the generator; the result is
    [staged]. *)
Fixpoint stage_all (cfg : MkDocsConfig) (g : gen Pair) (hp : Heap) (staged : nat)
  : Heap * outcome nat :=
  match g with
  | Stop => (hp, Returned staged)
  | Throw e => (hp, Raised e)
  | Yield pr k =>
      match stage_pair cfg pr hp with
      | (hp', Raised e) => (hp', Raised e)
      | (hp', Returned _) => stage_all cfg k hp' (S staged)
      end
  end.

(** [on_files]: the heap afterwards, and the identity of the
    collection it returns. *)
Definition on_files (self : ExtraFilesPlugin) (cfg : MkDocsConfig) (hp : Heap)
  : Heap * outcome nat :=
  match stage_all cfg (_expand_items self h) hp 0 with
  | (hp', Raised e) => (hp', Raised e)
  | (hp', Returned staged) => (hp', Returned (files_oid (collection hp')))
  end.

(** The [for] loop of [on_serve], lines 146-148. *)
Fixpoint watch_all (g : gen Pair) (server : LiveReloadServer)
  : LiveReloadServer * outcome unit :=
  match g with
  | Stop => (server, Returned tt)
  | Throw e => (server, Raised e)
  | Yield (src, _) k =>
      if exists_ h src then
        match watch server (PurePosixPath.str src) with
        | (server', Raised e) => (server', Raised e)
        | (server', Returned _) => watch_all k server'
        end
      else watch_all k server
  end.

(** [try: ... except Exception: pass]: every exception of the model
    derives from [Exception]. *)
Definition except_Exception_pass {S : Type} (r : S * outcome unit) : S * outcome unit :=
  match r with
  | (s, Raised _) => (s, Returned tt)
  | (s, Returned _) => (s, Returned tt)
  end.

(** [on_serve], given the generator that [self._expand_items()]
    returns (a test replaces the method): the server afterwards, and
    the identity of the server it returns. *)
Definition on_serve_with (g : gen Pair) (server : LiveReloadServer)
  : LiveReloadServer * outcome nat :=
  match except_Exception_pass (watch_all g server) with
  | (server', Raised e) => (server', Raised e)
  | (server', Returned _) => (server', Returned (server_oid server'))
  end.

Definition on_serve (self : ExtraFilesPlugin) (server : LiveReloadServer)
  : LiveReloadServer * outcome nat :=
  on_serve_with (_expand_items self h) server.
End Hooks.

(** ** Vocabulary of the statements *)

(** [g] followed by [k]: what a generator does that runs the body of
    [g] and then, unless [g] raised, the body of [k]. *)
Fixpoint gen_then {A} (g k : gen A) : gen A :=
  match g with
  | Yield a g' => Yield a (gen_then g' k)
  | Stop => k
  | Throw e => Throw e
  end.

(** A well-formed tail component of a pure path: kept by the parser
    and free of slashes. *)
Definition component (w : string) : Prop :=
  Is_true (PurePosixPath.kept w) ∧ PyStr.contains slash w = false.

(** The three roots of a POSIX path. *)
Definition is_root (r : string) : Prop := r = "" ∨ r = "/" ∨ r = "//".

(** The destination URIs a generator yields. *)
Definition dest_uris (g : gen Pair) : list string := map snd (yielded g).

(** A destination URI is relative when it does not start at a root. *)
Definition relative_uri (d : string) : Prop :=
  PurePosixPath.is_absolute (Path d) = false.

(** The separators a directory-style [dest] may end with. *)
Definition ends_with_separator (dest : string) : bool :=
  PyStr.endswith_any dest ["/"; PyStr.chr backslash].

(** Two hosts that resolve paths alike, whatever exists on their
    disks. *)
Definition same_paths (h h' : Host) : Prop :=
  cwd h = cwd h' ∧ ∀ p, realpath h p = realpath h' p.

(** The sources a generator yields that exist on disk, as the strings
    handed to the watcher. *)
Definition existing_sources (h : Host) (g : gen Pair) : list string :=
  map PurePosixPath.str (List.filter (exists_ h) (map fst (yielded g))).

(** What [on_serve] promises about a run over the generator [g]: it
    returns the server it was given; the paths it registered are, in
    order, sources that [g] yielded and that exist; and every such
    source is registered unless the watcher itself raised. *)
Definition serve_spec (h : Host) (g : gen Pair) (server : LiveReloadServer)
    (r : LiveReloadServer * outcome nat) : Prop :=
  ∃ server' l,
    r = (server', Returned (server_oid server))
    ∧ server_oid server' = server_oid server
    ∧ watched server' = watched server ++ l
    ∧ l `prefix_of` existing_sources h g
    ∧ ((∀ p, refuses server p = None) → l = existing_sources h g).

(** The invariants of the host's collection and allocator: an entry is
    filed under its own [src_uri], and every object in the collection
    was allocated before [next_oid]. *)
Definition well_formed (hp : Heap) : Prop :=
  ∀ k f, _src_uris (collection hp) !! k = Some f →
    src_uri f = k ∧ file_oid f < next_oid hp.

(** The source of the last pair of [l] whose URI is [d]. *)
Fixpoint last_source (d : string) (l : list Pair) : option PurePosixPath.t :=
  match l with
  | [] => None
  | (s, u) :: l' =>
      match last_source d l' with
      | Some s' => Some s'
      | None => if PyStr.eqb u d then Some s else None
      end
  end.

(** Staging a pair whose source exists, in a well-formed heap, and a
    list of such pairs. *)
Definition stage_existing (cfg : MkDocsConfig) (hp : Heap) (pr : Pair) : Heap :=
  {| collection :=
       append (collection hp)
         (generated cfg (snd pr) (PurePosixPath.str (fst pr)) (next_oid hp));
     next_oid := S (next_oid hp) |}.
Definition stage_list (cfg : MkDocsConfig) (hp : Heap) (l : list Pair) : Heap :=
  foldl (stage_existing cfg) hp l.

(** ** Fixtures: the project directories of the test-suite *)

Module Fixtures.
Import PosixFS.

Definition project (entries : list (string * node)) : fs :=
  {| fs_root := [("proj", Directory entries)]; fs_cwd := "/proj" |}.

Definition plugin (items : list Item) : ExtraFilesPlugin :=
  {| config := {| enabled := true; files := items |};
     config_dir := Some (Path "/proj") |}.

Definition build_config : MkDocsConfig :=
  {| docs_dir := "/proj/docs"; config_file_path := Some "/proj/mkdocs.yml";
     site_dir := "/proj/site"; use_directory_urls := false;
     current_plugin := Some "extrafiles" |}.

Definition empty_heap : Heap :=
  {| collection := {| files_oid := 0; _src_uris := ∅ |}; next_oid := 1 |}.

Definition dummy_server : LiveReloadServer :=
  {| server_oid := 7; watched := []; refuses := λ _, None |}.

(** [test_expand_items_expands_glob_sources] *)
Definition assets_tree : fs :=
  project [("assets", Directory [
    ("first.txt", RegularFile);
    ("nested", Directory [("second.txt", RegularFile); ("ignore.bin", RegularFile)])])].

(** [test_expand_items_preserves_relative_structure] *)
Definition shared_tree : fs :=
  project [("assets", Directory [
    ("shared.txt", RegularFile);
    ("nested", Directory [("shared.txt", RegularFile)])])].

Definition assets_glob : Item := {| src := "assets/**/*.txt"; dest := "external/" |}.

(** A project with two files beside the configuration. *)
Definition two_files_tree : fs :=
  project [("mkdocs.yml", RegularFile); ("a.txt", RegularFile); ("b.txt", RegularFile)].

Definition a_to_x : Item := {| src := "a.txt"; dest := "x.txt" |}.
Definition b_to_x : Item := {| src := "b.txt"; dest := "x.txt" |}.
Definition missing_to_y : Item := {| src := "missing.txt"; dest := "y.txt" |}.

(** [test_expand_items_requires_directory_for_glob_dest] *)
Definition bare_glob : Item := {| src := "*.txt"; dest := "external" |}.

(** A [dest] written the Windows way, from the current directory. *)
Definition dotted_dest : Item :=
  {| src := "a.txt";
     dest := "." +:+ PyStr.chr backslash +:+ "external" +:+ PyStr.chr backslash +:+ "a.txt" |}.

(** [test_on_files_replaces_existing_entries] *)
Definition readme_tree : fs := project [("README.md", RegularFile)].
Definition readme : Item := {| src := "README.md"; dest := "external/README.md" |}.
Definition existing_readme : File :=
  {| file_oid := 1; src_uri := "external/README.md";
     abs_src_path := Some "src/external/README.md"; dest_dir := "/proj/site";
     directory_urls := false; generated_by := None |}.
Definition readme_heap : Heap :=
  {| collection := {| files_oid := 0;
                      _src_uris := {[ "external/README.md" := existing_readme ]} |};
     next_oid := 2 |}.

End Fixtures.

(** ** Vocabulary of the further properties *)

(** The pairs the loop of [on_files] stages before it stops: those
    yielded before the first source that is missing, or before the
    generator stops or raises. *)
Fixpoint staged_prefix (h : Host) (g : gen Pair) : list Pair :=
  match g with
  | Yield pr k => if exists_ h (fst pr) then pr :: staged_prefix h k else []
  | Stop | Throw _ => []
  end.

(** The exception that stops the loop of [on_files], if any. *)
Fixpoint staging_error (h : Host) (g : gen Pair) : option exn :=
  match g with
  | Yield pr k =>
      if exists_ h (fst pr) then staging_error h k
      else Some (Exn FileNotFoundError (PurePosixPath.str (fst pr)))
  | Stop => None
  | Throw e => Some e
  end.

(** A [File] without its identity: what two objects built from the
    same arguments have in common. *)
Definition forget_oid (f : File) : File :=
  {| file_oid := 0; src_uri := src_uri f; abs_src_path := abs_src_path f;
     dest_dir := dest_dir f; directory_urls := directory_urls f;
     generated_by := generated_by f |}.

(** A host on which every regular file exists. *)
Definition coherent (h : Host) : Prop :=
  ∀ p, path_is_file h p = true → path_exists h p = true.

(** The paths a watcher accepts before the first one it refuses. *)
Fixpoint accepted_prefix (refuses : string → option exn) (l : list string)
  : list string :=
  match l with
  | [] => []
  | p :: l' =>
      match refuses p with
      | None => p :: accepted_prefix refuses l'
      | Some _ => []
      end
  end.

(** * Properties *)

(** ** Strings *)

Section StrFacts.

Lemma append_cons a s t : String a s +:+ t = String a (s +:+ t).
Proof. reflexivity. Qed.

Lemma append_nil_l t : "" +:+ t = t.
Proof. reflexivity. Qed.

Lemma append_nil_r s : s +:+ "" = s.
Proof. induction s as [|a s IH]; [done|]. by rewrite append_cons, IH. Qed.

Lemma eqb_true s t : PyStr.eqb s t = true ↔ s = t.
Proof. unfold PyStr.eqb. by rewrite bool_decide_eq_true. Qed.

Lemma eqb_false s t : PyStr.eqb s t = false ↔ s ≠ t.
Proof. unfold PyStr.eqb. by rewrite bool_decide_eq_false. Qed.

Lemma split_nonempty sep s : PyStr.split sep s ≠ [].
Proof.
  destruct s as [|a s]; simpl; [done|].
  case_bool_decide; [done|]. by destruct (PyStr.split sep s).
Qed.

(** No piece of a split contains the separator. *)
Lemma split_no_sep sep s :
  Forall (λ w, PyStr.contains sep w = false) (PyStr.split sep s).
Proof.
  induction s as [|a s IH]; simpl.
  - by constructor.
  - case_bool_decide as Ha.
    + by constructor.
    + destruct (PyStr.split sep s) as [|w ws].
      * constructor; [|done]. simpl. by rewrite bool_decide_eq_false_2.
      * inversion_clear IH. constructor; [|done].
        simpl. by rewrite bool_decide_eq_false_2.
Qed.

(** Joining what was split gives the string back. *)
Lemma join_split sep s : PyStr.join (PyStr.chr sep) (PyStr.split sep s) = s.
Proof.
  induction s as [|a s IH]; simpl; [done|].
  case_bool_decide as Ha.
  - subst a. pose proof (split_nonempty sep s) as Hne.
    destruct (PyStr.split sep s) as [|w ws]; [done|].
    change (PyStr.join (PyStr.chr sep) ("" :: w :: ws))
      with ("" +:+ PyStr.chr sep +:+ PyStr.join (PyStr.chr sep) (w :: ws)).
    by rewrite IH.
  - pose proof (split_nonempty sep s) as Hne.
    destruct (PyStr.split sep s) as [|w ws]; [done|].
    destruct ws as [|w' ws].
    + simpl in *. by rewrite IH.
    + change (PyStr.join (PyStr.chr sep) (String a w :: w' :: ws))
        with (String a (w +:+ PyStr.chr sep +:+ PyStr.join (PyStr.chr sep) (w' :: ws))).
      by rewrite <- IH.
Qed.

(** Splitting a piece without separator, a separator and a rest. *)
Lemma split_app_sep sep w rest :
  PyStr.contains sep w = false →
  PyStr.split sep (w +:+ PyStr.chr sep +:+ rest) = w :: PyStr.split sep rest.
Proof.
  induction w as [|a w IH]; simpl; intros Hw.
  - rewrite append_nil_l. simpl. by rewrite bool_decide_eq_true_2.
  - apply orb_false_iff in Hw as [Ha Hw]. apply bool_decide_eq_false in Ha.
    rewrite bool_decide_eq_false_2 by done. by rewrite IH.
Qed.

Lemma split_no_sep_id sep w :
  PyStr.contains sep w = false → PyStr.split sep w = [w].
Proof.
  induction w as [|a w IH]; simpl; intros Hw; [done|].
  apply orb_false_iff in Hw as [Ha Hw]. apply bool_decide_eq_false in Ha.
  rewrite bool_decide_eq_false_2 by done. by rewrite IH.
Qed.

(** Splitting what was joined gives the pieces back. *)
Lemma split_join sep parts :
  parts ≠ [] →
  Forall (λ w, PyStr.contains sep w = false) parts →
  PyStr.split sep (PyStr.join (PyStr.chr sep) parts) = parts.
Proof.
  induction parts as [|w ws IH]; [done|]. intros _ Hall.
  inversion_clear Hall as [|?? Hw Hws].
  destruct ws as [|w' ws].
  - simpl. by apply split_no_sep_id.
  - change (PyStr.join (PyStr.chr sep) (w :: w' :: ws))
      with (w +:+ PyStr.chr sep +:+ PyStr.join (PyStr.chr sep) (w' :: ws)).
    rewrite split_app_sep by done. f_equal. by apply IH.
Qed.

End StrFacts.

(** ** Pure paths *)

Section PathFacts.
Import PurePosixPath.

Lemma filter_kept_components l :
  Forall (λ w, PyStr.contains slash w = false) l →
  Forall component (filter (λ x, Is_true (kept x)) l).
Proof.
  induction 1 as [|w l Hw _ IH]; [constructor|].
  rewrite filter_cons. destruct (decide (Is_true (kept w))); [|done].
  by constructor.
Qed.

Lemma filter_kept_id l :
  Forall (λ x, Is_true (kept x)) l → filter (λ x, Is_true (kept x)) l = l.
Proof.
  induction 1 as [|w l Hw _ IH]; [done|].
  by rewrite filter_cons_True, IH.
Qed.

Lemma parse_tail_components p : Forall component (snd (parse p)).
Proof.
  unfold parse. destruct (splitroot p) as [root rel]. simpl.
  apply filter_kept_components, split_no_sep.
Qed.

Lemma parse_root p : is_root (fst (parse p)).
Proof.
  unfold parse, splitroot, is_root.
  destruct (PyStr.startswith p "/"); simpl; [|by left].
  destruct (negb _ || _); simpl; [right; by left | right; by right].
Qed.

Lemma component_not_slash_first w rest :
  component w → PyStr.startswith (w +:+ rest) "/" = false.
Proof.
  intros [Hk Hs]. destruct w as [|a w].
  - by apply Is_true_true in Hk.
  - simpl in *. apply orb_false_iff in Hs as [Ha _].
    apply bool_decide_eq_false in Ha. unfold slash in Ha.
    by rewrite bool_decide_eq_false_2.
Qed.

Lemma join_not_slash_first tail :
  Forall component tail → PyStr.startswith (PyStr.join "/" tail) "/" = false.
Proof.
  destruct 1 as [|w tail Hw _]; [done|].
  destruct tail as [|w' tail].
  - simpl. rewrite <- (append_nil_r w). by apply component_not_slash_first.
  - change (PyStr.join "/" (w :: w' :: tail))
      with (w +:+ "/" +:+ PyStr.join "/" (w' :: tail)).
    by apply component_not_slash_first.
Qed.

Lemma splitroot_format root tail :
  is_root root → Forall component tail →
  splitroot (format_parsed_parts root tail) = (root, PyStr.join "/" tail).
Proof.
  intros Hroot Htail. pose proof (join_not_slash_first tail Htail) as Hj.
  unfold format_parsed_parts.
  destruct Hroot as [-> | [-> | ->]].
  - rewrite append_nil_l. unfold splitroot. by rewrite Hj.
  - change ("/" +:+ PyStr.join "/" tail) with (String "/"%char (PyStr.join "/" tail)).
    unfold splitroot. cbn [PyStr.drop1].
    change (PyStr.startswith (String "/"%char (PyStr.join "/" tail)) "/") with true.
    by rewrite Hj.
  - change ("//" +:+ PyStr.join "/" tail)
      with (String "/"%char (String "/"%char (PyStr.join "/" tail))).
    unfold splitroot. cbn [PyStr.drop1].
    change (PyStr.startswith (String "/"%char (String "/"%char (PyStr.join "/" tail))) "/")
      with true.
    change (PyStr.startswith (String "/"%char (PyStr.join "/" tail)) "/") with true.
    by rewrite Hj.
Qed.

Lemma split_join_components tail :
  Forall component tail →
  filter (λ x, Is_true (kept x)) (PyStr.split slash (PyStr.join "/" tail)) = tail.
Proof.
  intros Htail. destruct (decide (tail = [])) as [-> | Hne]; [done|].
  change "/" with (PyStr.chr slash). rewrite split_join; [|done|].
  - apply filter_kept_id. eapply Forall_impl; [done|]. by intros ? [? ?].
  - eapply Forall_impl; [done|]. by intros ? [? ?].
Qed.

(** Parsing what was formatted gives the parts back. *)
Lemma parse_format_parsed_parts root tail :
  is_root root → Forall component tail →
  parse (format_parsed_parts root tail) = (root, tail).
Proof.
  intros Hroot Htail. unfold parse.
  rewrite splitroot_format by done. by rewrite split_join_components.
Qed.

Lemma parse_dot : parse "." = ("", []).
Proof. reflexivity. Qed.

Lemma parse_format root tail :
  is_root root → Forall component tail →
  let '(root', tail') := parse (format root tail) in
  format root' tail' = format root tail.
Proof.
  intros Hroot Htail. unfold format at 1.
  destruct (format_parsed_parts root tail) as [|a s] eqn:E.
  - rewrite parse_dot. unfold format at 2. by rewrite E.
  - rewrite <- E, parse_format_parsed_parts by done. done.
Qed.

(** [as_posix] yields a fixed point of the parser: a string that is
    its own normal form. *)
Lemma as_posix_idempotent p : as_posix (Path (as_posix p)) = as_posix p.
Proof.
  unfold as_posix, str. simpl.
  pose proof (parse_root (raw p)) as Hroot.
  pose proof (parse_tail_components (raw p)) as Htail.
  destruct (parse (raw p)) as [root tail]. simpl in *.
  pose proof (parse_format root tail Hroot Htail) as H.
  by destruct (parse (format root tail)).
Qed.

(** A string whose components are all kept is its own normal form. *)
Lemma as_posix_kept s :
  Forall (λ x, Is_true (kept x)) (PyStr.split slash s) → as_posix (Path s) = s.
Proof.
  intros Hk. unfold as_posix, str, parse, splitroot. cbn [raw].
  assert (PyStr.startswith s "/" = false) as ->.
  { destruct s as [|a s]; [done|]. simpl in *.
    destruct (decide (a = slash)) as [-> | Ha].
    - rewrite bool_decide_eq_true_2 in Hk by done.
      inversion_clear Hk as [|?? H0 _]. by apply Is_true_true in H0.
    - by rewrite bool_decide_eq_false_2. }
  simpl. rewrite filter_kept_id by done.
  unfold format, format_parsed_parts. rewrite append_nil_l.
  change "/" with (PyStr.chr slash). rewrite join_split.
  destruct s; [|done].
  inversion_clear Hk as [|?? H0 _]. by apply Is_true_true in H0.
Qed.

End PathFacts.

(** ** Generators *)

Section GenFacts.
Context {A : Type}.
Implicit Types (g k : gen A) (l : list A).

Lemma yielded_yield_all l k : yielded (yield_all l k) = l ++ yielded k.
Proof. induction l as [|a l IH]; simpl; [done|]. by rewrite IH. Qed.

Lemma raised_yield_all l k : raised (yield_all l k) = raised k.
Proof. by induction l. Qed.

Lemma yield_all_then l g : yield_all l g = gen_then (yield_all l Stop) g.
Proof. induction l as [|a l IH]; simpl; [done|]. by rewrite IH. Qed.

Lemma yielded_then g k :
  yielded (gen_then g k) =
  yielded g ++ match raised g with None => yielded k | Some _ => [] end.
Proof. induction g as [a g IH| |e]; simpl; [by rewrite IH|done..]. Qed.

Lemma raised_then g k :
  raised (gen_then g k) =
  match raised g with None => raised k | Some e => Some e end.
Proof. induction g as [a g IH| |e]; simpl; done. Qed.

Lemma to_list_raised g e : raised g = Some e → to_list g = Raised e.
Proof. unfold to_list. by intros ->. Qed.

End GenFacts.

(** ** The expander *)

Section ExpandFacts.
Context (self : ExtraFilesPlugin) (h : Host).
Implicit Types (item : Item) (pre post items : list Item).

(** The entries are expanded one after the other. *)
Lemma expand_from_app pre post :
  expand_from self h (pre ++ post) =
  gen_then (expand_from self h pre) (expand_from self h post).
Proof.
  induction pre as [|item pre IH]; simpl; [done|].
  destruct (PurePosixPath.is_absolute _); [done|].
  destruct (has_glob_char _).
  - destruct (negb _); [done|].
    destruct (glob_pattern _ _ _) as [pattern|e]; [|done].
    rewrite IH. rewrite (yield_all_then _ (gen_then _ _)).
    rewrite (yield_all_then _ (expand_from _ _ pre)).
    generalize (yield_all (glob_pairs h pattern (dest item)) Stop) as g.
    induction g as [x g IHg| |e]; simpl; [by rewrite IHg|done..].
  - destruct (literal_pair _ _ _ _); [|done]. simpl. by rewrite IH.
Qed.

(** An absolute [dest] is rejected when its entry is reached,
    whatever the shape of [src]. *)
Lemma absolute_dest_rejected item post :
  PurePosixPath.is_absolute (Path (dest item)) = true →
  expand_from self h (item :: post) = Throw (Exn ValueError (dest item)).
Proof. simpl. by intros ->. Qed.

(** Nothing is yielded for such an entry or after it, and the
    expansion ends with an exception. *)
Lemma absolute_dest_stops_expansion pre item post :
  files (config self) = pre ++ item :: post →
  PurePosixPath.is_absolute (Path (dest item)) = true →
  yielded (_expand_items self h) = yielded (expand_from self h pre)
  ∧ raised (_expand_items self h) =
      Some (default (Exn ValueError (dest item)) (raised (expand_from self h pre))).
Proof.
  intros Hfiles Habs. unfold _expand_items.
  rewrite Hfiles, expand_from_app, absolute_dest_rejected by done.
  rewrite yielded_then, raised_then. simpl.
  destruct (raised (expand_from self h pre)); by rewrite app_nil_r.
Qed.

(** A glob entry without a directory-style [dest] is rejected when
    it is reached. *)
Lemma glob_dest_rejected item post :
  has_glob_char (src item) = true →
  ends_with_separator (dest item) = false →
  ∃ e, expand_from self h (item :: post) = Throw e ∧ exn_class e = ValueError.
Proof.
  unfold ends_with_separator. simpl. intros -> ->. simpl.
  destruct (PurePosixPath.is_absolute _); eauto.
Qed.

(** Every URI the expander yields is the [as_posix] of a pure path. *)
Lemma glob_pairs_uri pattern d s u :
  (s, u) ∈ glob_pairs h pattern d →
  ∃ p, u = PurePosixPath.as_posix p.
Proof.
  unfold glob_pairs. intros Hin. apply list_elem_of_In, in_flat_map in Hin.
  destruct Hin as (m & _ & Hin). destruct (is_file h m); [|done].
  destruct Hin as [[= <- <-] | []]. eauto.
Qed.

Lemma literal_pair_uri s0 d s u :
  literal_pair self h s0 d = Returned (s, u) →
  ∃ p, u = PurePosixPath.as_posix p.
Proof.
  unfold literal_pair. destruct (PurePosixPath.is_absolute _).
  - intros [= <- <-]. eauto.
  - destruct (get_config_dir self); [|done]. intros [= <- <-]. eauto.
Qed.

Lemma yielded_uri items s u :
  (s, u) ∈ yielded (expand_from self h items) →
  ∃ p, u = PurePosixPath.as_posix p.
Proof.
  induction items as [|item items IH]; simpl; [by intros ?%elem_of_nil|].
  destruct (PurePosixPath.is_absolute _); [by intros ?%elem_of_nil|].
  destruct (has_glob_char _).
  - destruct (negb _); [by intros ?%elem_of_nil|].
    destruct (glob_pattern _ _ _); [|by intros ?%elem_of_nil].
    rewrite yielded_yield_all. intros [Hin | Hin]%elem_of_app; [|auto].
    by eapply glob_pairs_uri.
  - destruct (literal_pair _ _ _ _) as [[s' u']|] eqn:E; [|by intros ?%elem_of_nil].
    simpl. intros [[= -> ->] | Hin]%elem_of_cons; [|auto].
    by eapply literal_pair_uri.
Qed.

(** Hence every yielded URI is the key it is filed under. *)
Lemma yielded_uri_key items s u :
  (s, u) ∈ yielded (expand_from self h items) → uri_of u = u.
Proof.
  intros [p ->]%yielded_uri. apply as_posix_idempotent.
Qed.

End ExpandFacts.

(** ** The claims on the expander *)

Section ExpandClaims.
Context (self : ExtraFilesPlugin) (h : Host).

(** C4.  A glob entry whose [dest] does not end with a separator makes
    [_expand_items] raise a [ValueError] when it is reached: nothing is
    yielded for that entry or after it, and when the entries before it
    expand without error the expansion as a whole raises
    [ValueError]. *)
Theorem glob_requires_directory_dest pre item post :
  files (config self) = pre ++ item :: post →
  has_glob_char (src item) = true →
  ends_with_separator (dest item) = false →
  (∃ e, expand_from self h (item :: post) = Throw e ∧ exn_class e = ValueError)
  ∧ yielded (_expand_items self h) = yielded (expand_from self h pre)
  ∧ (raised (expand_from self h pre) = None →
     ∃ e, to_list (_expand_items self h) = Raised e ∧ exn_class e = ValueError).
Proof.
  intros Hfiles Hglob Hdest.
  destruct (glob_dest_rejected self h item post Hglob Hdest) as (e & He & Hcls).
  unfold _expand_items. rewrite Hfiles, expand_from_app, He.
  split; [eauto|]. split.
  - rewrite yielded_then. simpl. destruct (raised _); by rewrite app_nil_r.
  - intros Hpre. exists e. split; [|done].
    apply to_list_raised. rewrite raised_then. by rewrite Hpre.
Qed.

(** C5, amended.  A literal entry with a relative [dest] yields
    exactly one pair.  Its URI is the normal form, as [PurePosixPath]
    prints it, of [dest] with backslashes turned into slashes; that is
    the converted [dest] itself when none of its components is empty
    or a dot.  Its source is [src], joined to [config_dir] when
    relative, resolved.  No host answer about what exists is used. *)
Theorem literal_entry_pair pre item post d :
  files (config self) = pre ++ item :: post →
  has_glob_char (src item) = false →
  PurePosixPath.is_absolute (Path (dest item)) = false →
  PurePosixPath.is_absolute (Path (src item)) = true ∨ config_dir self = Some d →
  let s := if PurePosixPath.is_absolute (Path (src item))
           then Path (src item) else d </> src item in
  let converted := PyStr.replace backslash slash (dest item) in
  let pair := (resolve h s, PurePosixPath.as_posix (Path converted)) in
  expand_from self h [item] = Yield pair Stop
  ∧ _expand_items self h =
      gen_then (expand_from self h pre) (Yield pair (expand_from self h post))
  ∧ (Forall (λ x, Is_true (PurePosixPath.kept x)) (PyStr.split slash converted) →
     snd pair = converted)
  ∧ (∀ h', same_paths h h' → expand_from self h' [item] = expand_from self h [item]).
Proof.
  intros Hfiles Hglob Hdest Hdir s converted pair.
  assert (∀ h' rest, same_paths h h' →
    expand_from self h' (item :: rest) = Yield pair (expand_from self h' rest)) as Hone.
  { intros h' rest [_ Hreal]. simpl. rewrite Hdest, Hglob.
    unfold literal_pair, get_config_dir. cbn [PurePosixPath.raw].
    subst pair s. unfold resolve. rewrite Hreal.
    destruct Hdir as [-> | ->]; [done|].
    by destruct (PurePosixPath.is_absolute (Path (src item))). }
  assert (same_paths h h) as Hrefl by done.
  split; [by apply Hone|]. split; [|split].
  - unfold _expand_items. by rewrite Hfiles, expand_from_app, Hone.
  - apply as_posix_kept.
  - intros h' Hsame. by rewrite !Hone.
Qed.

End ExpandClaims.

(** ** The claims on the hooks *)

Section HookFacts.
Context (h : Host).

Lemma stage_all_then cfg (g k : gen Pair) hp n :
  stage_all h cfg (gen_then g k) hp n =
  match stage_all h cfg g hp n with
  | (hp1, Returned m) => stage_all h cfg k hp1 m
  | (hp1, Raised e) => (hp1, Raised e)
  end.
Proof.
  revert hp n. induction g as [pr g IH| |e]; intros hp n; simpl; [|done..].
  destruct (stage_pair h cfg pr hp) as [hp1 [[]|e]]; [apply IH|done].
Qed.

Lemma stage_pair_missing cfg s d hp :
  exists_ h s = false →
  stage_pair h cfg (s, d) hp =
  (hp, Raised (Exn FileNotFoundError (PurePosixPath.str s))).
Proof. unfold stage_pair. by intros ->. Qed.

(** In a well-formed heap, staging a pair whose source exists files
    the generated entry under the URI, in place of what was there. *)
Lemma stage_pair_existing cfg s d hp :
  well_formed hp → exists_ h s = true →
  stage_pair h cfg (s, d) hp =
  ({| collection :=
        append (collection hp)
          (generated cfg d (PurePosixPath.str s) (next_oid hp));
      next_oid := S (next_oid hp) |}, Returned tt).
Proof.
  intros Hwf Hex. unfold stage_pair. rewrite Hex. simpl.
  unfold get_file_from_path.
  destruct (_src_uris (collection hp) !! uri_of d) as [existing|] eqn:E; [|done].
  destruct (Hwf _ _ E) as [Hkey _]. unfold remove. rewrite Hkey, E.
  unfold append. simpl. by rewrite insert_delete_eq.
Qed.

Lemma stage_pair_well_formed cfg s d hp :
  well_formed hp →
  well_formed {| collection :=
                   append (collection hp)
                     (generated cfg d (PurePosixPath.str s) (next_oid hp));
                 next_oid := S (next_oid hp) |}.
Proof.
  intros Hwf k f. simpl. rewrite lookup_insert. case_decide as Hk.
  - intros [= <-]. simpl. split; [done|lia].
  - intros [? ?]%Hwf. split; [done|lia].
Qed.

Lemma stage_existing_well_formed cfg hp pr :
  well_formed hp → well_formed (stage_existing cfg hp pr).
Proof. destruct pr. apply stage_pair_well_formed. Qed.

(** When the loop of [on_files] completes, the generator stopped
    without raising, every source existed, and the heap is the one
    obtained by staging the yielded pairs in order. *)
Lemma stage_all_returned cfg g hp n hp' m :
  well_formed hp →
  stage_all h cfg g hp n = (hp', Returned m) →
  raised g = None
  ∧ Forall (λ pr, exists_ h (fst pr) = true) (yielded g)
  ∧ hp' = stage_list cfg hp (yielded g).
Proof.
  revert hp n. induction g as [[s d] g IH| |e]; intros hp n Hwf;
    cbn [stage_all yielded raised].
  - destruct (exists_ h s) eqn:Hex.
    + rewrite stage_pair_existing by done. intros Hrun.
      apply IH in Hrun as (Hr & Hall & ->); [|by apply stage_pair_well_formed].
      split; [done|]. split; [|done]. by constructor.
    + by rewrite stage_pair_missing.
  - intros [= <- <-]. by repeat split.
  - done.
Qed.

Lemma stage_list_next_oid cfg l hp :
  next_oid (stage_list cfg hp l) = next_oid hp + length l.
Proof.
  revert hp. induction l as [|pr l IH]; intros hp; simpl; [lia|].
  unfold stage_list in *. rewrite IH. simpl. lia.
Qed.

(** Staging leaves the other keys alone. *)
Lemma stage_list_lookup_other cfg l hp k :
  k ∉ map (λ pr, uri_of (snd pr)) l →
  _src_uris (collection (stage_list cfg hp l)) !! k = _src_uris (collection hp) !! k.
Proof.
  revert hp. induction l as [|pr l IH]; intros hp Hk; [done|].
  simpl in Hk. apply not_elem_of_cons in Hk as [Hne Hk].
  unfold stage_list in *. simpl. rewrite IH by done. simpl.
  by rewrite lookup_insert_ne.
Qed.

(** The entry under a URI is the one generated for the last pair
    with that URI. *)
Lemma stage_list_lookup_last cfg l1 s d l2 hp :
  uri_of d = d →
  d ∉ map (λ pr, uri_of (snd pr)) l2 →
  _src_uris (collection (stage_list cfg hp (l1 ++ (s, d) :: l2))) !! d =
  Some (generated cfg d (PurePosixPath.str s) (next_oid hp + length l1)).
Proof.
  intros Hd Hl2. unfold stage_list. rewrite foldl_app. simpl.
  fold (stage_list cfg hp l1).
  fold (stage_list cfg (stage_existing cfg (stage_list cfg hp l1) (s, d)) l2).
  rewrite stage_list_lookup_other by done. simpl.
  rewrite stage_list_next_oid, lookup_insert. by case_decide.
Qed.

Lemma last_source_absent d l : d ∉ map snd l → last_source d l = None.
Proof.
  induction l as [|[s u] l IH]; simpl; [done|].
  intros [Hne Hl]%not_elem_of_cons. rewrite IH by done.
  destruct (PyStr.eqb u d) eqn:E; [|done]. by apply eqb_true in E.
Qed.

Lemma last_source_last d l1 s l2 :
  d ∉ map snd l2 → last_source d (l1 ++ (s, d) :: l2) = Some s.
Proof.
  intros Hl2. induction l1 as [|[s1 u1] l1 IH]; simpl.
  - rewrite last_source_absent by done.
    destruct (PyStr.eqb d d) eqn:E; [done|]. by apply eqb_false in E.
  - by rewrite IH.
Qed.

Lemma last_occurrence d (l : list Pair) :
  d ∈ map snd l → ∃ l1 s' l2, l = l1 ++ (s', d) :: l2 ∧ d ∉ map snd l2.
Proof.
  induction l as [|[s0 u] l IH]; simpl; [by intros ?%elem_of_nil|].
  intros Hin. destruct (decide (d ∈ map snd l)) as [Hd | Hd].
  - destruct (IH Hd) as (l1 & s' & l2 & -> & Hl2).
    by exists ((s0, u) :: l1), s', l2.
  - apply elem_of_cons in Hin as [-> | ?]; [|done]. by exists [], s0, l.
Qed.

End HookFacts.

Section HookClaims.
Context (h : Host).

(** C9.  With the plugin disabled, [on_config] returns the
    configuration it was given and leaves the plugin as it was:
    [config_dir] is not set. *)
Theorem on_config_disabled self cfg :
  plugin_enabled self = false →
  on_config h self cfg = (self, Returned cfg)
  ∧ config_dir (fst (on_config h self cfg)) = config_dir self.
Proof. intros Hoff. unfold on_config. by rewrite Hoff. Qed.

(** C6, amended.  When the loop of [on_files] reaches a pair whose
    source does not exist, [on_files] raises [FileNotFoundError]
    before removing or inserting anything for that pair: the
    collection is then the one left by staging the pairs before it,
    and it is untouched when the missing pair comes first. *)
Theorem missing_source_raises self cfg hp pre s d k hp1 n :
  _expand_items self h = yield_all pre (Yield (s, d) k) →
  stage_all h cfg (yield_all pre Stop) hp 0 = (hp1, Returned n) →
  exists_ h s = false →
  on_files h self cfg hp =
    (hp1, Raised (Exn FileNotFoundError (PurePosixPath.str s)))
  ∧ (pre = [] → hp1 = hp).
Proof.
  intros Hgen Hpre Hmissing. split.
  - unfold on_files. rewrite Hgen, yield_all_then, stage_all_then, Hpre.
    cbn [stage_all]. by rewrite stage_pair_missing.
  - intros ->. simpl in Hpre. by injection Hpre.
Qed.

Lemma stage_pair_replaces cfg s d hp :
  well_formed hp → exists_ h s = true →
  ∃ hp1,
    stage_pair h cfg (s, d) hp = (hp1, Returned tt)
    ∧ get_file_from_path (collection hp1) d =
        Some (generated cfg d (PurePosixPath.str s) (next_oid hp))
    ∧ ∀ old, get_file_from_path (collection hp) d = Some old →
        ∀ k, _src_uris (collection hp1) !! k ≠ Some old.
Proof.
  intros Hwf Hex. eexists. split; [by apply stage_pair_existing|].
  unfold get_file_from_path. simpl. split; [by rewrite lookup_insert_eq|].
  intros old Hold k. destruct (Hwf _ _ Hold) as [Hkey Hoid].
  rewrite lookup_insert. case_decide as Hk.
  - intros [= <-]. simpl in Hoid. lia.
  - intros Hk'. destruct (Hwf _ _ Hk') as [Hkey' _]. congruence.
Qed.

(** C7, amended.  In a well-formed heap, staging a pair whose source
    exists removes the entry filed under its URI and files a newly
    generated one, bound to the resolved source.  When [on_files]
    returns, every expanded pair had an existing source, and the
    entry under its URI is an object that was not in the collection
    before, bound to the source of the last expanded pair with that
    URI: the pair's own source when no later pair shares the URI. *)
Theorem staging_replaces_entry self cfg hp hp' r :
  well_formed hp →
  on_files h self cfg hp = (hp', Returned r) →
  (∀ s d hp0, well_formed hp0 → exists_ h s = true →
     ∃ hp1,
       stage_pair h cfg (s, d) hp0 = (hp1, Returned tt)
       ∧ get_file_from_path (collection hp1) d =
           Some (generated cfg d (PurePosixPath.str s) (next_oid hp0))
       ∧ ∀ old, get_file_from_path (collection hp0) d = Some old →
           ∀ k, _src_uris (collection hp1) !! k ≠ Some old)
  ∧ ∀ s d, (s, d) ∈ yielded (_expand_items self h) →
      exists_ h s = true
      ∧ ∃ f s',
          last_source d (yielded (_expand_items self h)) = Some s'
          ∧ get_file_from_path (collection hp') d = Some f
          ∧ src_uri f = d
          ∧ abs_src_path f = Some (PurePosixPath.str s')
          ∧ (∀ k old, _src_uris (collection hp) !! k = Some old →
               file_oid old ≠ file_oid f)
          ∧ (∀ l1 l2, yielded (_expand_items self h) = l1 ++ (s, d) :: l2 →
               d ∉ map snd l2 → s' = s).
Proof.
  intros Hwf Hrun. split; [intros; by apply stage_pair_replaces|].
  unfold on_files in Hrun.
  destruct (stage_all h cfg (_expand_items self h) hp 0) as [hp1 [m|e]] eqn:Hall;
    [|done].
  injection Hrun as -> _.
  apply stage_all_returned in Hall as (_ & Hexist & ->); [|done].
  intros s d Hin. split.
  { rewrite Forall_forall in Hexist. by apply (Hexist (s, d)). }
  assert (d ∈ map snd (yielded (_expand_items self h))) as Hd.
  { apply list_elem_of_In, in_map_iff. exists (s, d). by rewrite <- list_elem_of_In. }
  destruct (last_occurrence d _ Hd) as (l1 & s' & l2 & Hsplit & Hl2).
  assert (∀ pr, pr ∈ yielded (_expand_items self h) → uri_of (snd pr) = snd pr)
    as Hkeys.
  { intros [s0 u0] H0. by eapply yielded_uri_key. }
  assert (d ∉ map (λ pr : Pair, uri_of (snd pr)) l2) as Hl2'.
  { intros ([s0 u0] & Hu & H0)%list_elem_of_In%in_map_iff. apply Hl2.
    apply list_elem_of_In in H0. simpl in Hu.
    assert (uri_of u0 = u0) as Hu0.
    { apply (Hkeys (s0, u0)). rewrite Hsplit. apply elem_of_app. right.
      by apply elem_of_cons; right. }
    rewrite Hu0 in Hu. subst u0. apply list_elem_of_In, in_map_iff.
    exists (s0, d). by rewrite <- list_elem_of_In. }
  assert (uri_of d = d) as Hkey.
  { apply (Hkeys (s', d)). rewrite Hsplit. apply elem_of_app. right.
    by apply elem_of_cons; left. }
  exists (generated cfg d (PurePosixPath.str s') (next_oid hp + length l1)), s'.
  rewrite Hsplit at 1 2. rewrite last_source_last by done.
  unfold get_file_from_path. rewrite Hkey.
  rewrite stage_list_lookup_last by done. simpl.
  repeat split; [done|..].
  - intros k old Hold. destruct (Hwf _ _ Hold) as [_ Hlt]. lia.
  - intros l1' l2' Hsplit' Hl2''. rewrite Hsplit' in Hsplit.
    pose proof (last_source_last d l1' s l2' Hl2'') as H1.
    rewrite Hsplit, last_source_last in H1 by done. by injection H1.
Qed.

(** The loop of [on_serve]: what it registers. *)
Lemma watch_all_spec g server :
  ∃ l,
    watched (fst (watch_all h g server)) = watched server ++ l
    ∧ server_oid (fst (watch_all h g server)) = server_oid server
    ∧ l `prefix_of` existing_sources h g
    ∧ ((∀ p, refuses server p = None) → l = existing_sources h g).
Proof.
  revert server. induction g as [[s u] g IH| |e]; intros server;
    cbn [watch_all]; [|exists []; by rewrite app_nil_r..].
  unfold existing_sources. cbn [yielded map List.filter fst].
  fold (existing_sources h g).
  destruct (exists_ h s) eqn:Hex; [|apply IH].
  unfold watch. destruct (refuses server (PurePosixPath.str s)) as [e|] eqn:Hr.
  - exists []. rewrite app_nil_r. repeat split; [apply prefix_nil|].
    intros Hnone. by rewrite Hnone in Hr.
  - match goal with |- context [watch_all h g ?s1] => destruct (IH s1) as (l & Hw & Ho & Hp & Hall) end.
    destruct (watch_all h g _) as [server' [[]|e]]; simpl in *;
      (exists (PurePosixPath.str s :: l); rewrite Hw, <- app_assoc;
       repeat split; [done|by apply prefix_cons|intros Hn; f_equal; by apply Hall]).
Qed.

(** C8.  [on_serve] never raises and returns the server it was
    given, whatever its expansion does: it registers the expanded
    sources that exist, skipping the missing ones, and swallows the
    exception of an expansion or of a registration that raises (no
    source is registered after that point). *)
Theorem on_serve_never_raises self g server :
  serve_spec h g server (on_serve_with h g server)
  ∧ serve_spec h (_expand_items self h) server (on_serve h self server).
Proof.
  assert (∀ g, serve_spec h g server (on_serve_with h g server)) as Hspec.
  { clear g. intros g. destruct (watch_all_spec g server) as (l & Hw & Ho & Hp & Hall).
    unfold serve_spec, on_serve_with, except_Exception_pass.
    destruct (watch_all h g server) as [server' [[]|e]]; simpl in *;
      exists server', l; by rewrite Ho. }
  split; apply Hspec.
Qed.

(** C10.  With an empty [files] list, [on_files] returns the
    collection it was given without touching it, and [on_serve]
    registers nothing. *)
Theorem empty_files_no_effect self cfg hp server :
  files (config self) = [] →
  on_files h self cfg hp = (hp, Returned (files_oid (collection hp)))
  ∧ on_serve h self server = (server, Returned (server_oid server)).
Proof.
  intros Hnil. unfold on_files, on_serve, on_serve_with, _expand_items.
  by rewrite Hnil.
Qed.

End HookClaims.

(** ** The expander on the project directories of the test-suite *)

Section Concrete.
Import Fixtures.

(** The URI of a glob match is made of [dest] and the basename of the
    match alone: two matches with the same basename get the same URI,
    wherever they lie under the glob root. *)
Lemma glob_uri_from_basename h pattern d s1 u1 s2 u2 :
  (s1, u1) ∈ glob_pairs h pattern d →
  (s2, u2) ∈ glob_pairs h pattern d →
  PurePosixPath.name s1 = PurePosixPath.name s2 →
  u1 = u2.
Proof.
  unfold glob_pairs. intros H1 H2 Hname.
  apply list_elem_of_In, in_flat_map in H1 as (m1 & _ & H1).
  apply list_elem_of_In, in_flat_map in H2 as (m2 & _ & H2).
  destruct (is_file h m1); [|done]. destruct (is_file h m2); [|done].
  destruct H1 as [[= <- <-] | []]. destruct H2 as [[= <- <-] | []].
  by rewrite Hname.
Qed.

(** C1, on the code.  Over [assets/shared.txt] and
    [assets/nested/shared.txt], the entry [assets/**/*.txt] to
    [external/] yields the same URI twice: the match in the
    subdirectory loses its [nested/] segment. *)
Theorem recursive_glob_same_basename_collides :
  to_list (_expand_items (plugin [assets_glob]) (PosixFS.host shared_tree)) =
  Returned [(Path "/proj/assets/shared.txt", "external/shared.txt");
            (Path "/proj/assets/nested/shared.txt", "external/shared.txt")].
Proof. vm_compute. reflexivity. Qed.

(** C2, on the code.  Over [assets/first.txt],
    [assets/nested/second.txt] and [assets/nested/ignore.bin], the
    entry [assets/**/*.txt] to [external/] yields the URIs
    [external/first.txt] and [external/second.txt], and not
    [external/nested/second.txt]. *)
Theorem assets_glob_destination_uris :
  let g := _expand_items (plugin [assets_glob]) (PosixFS.host assets_tree) in
  raised g = None
  ∧ (list_to_set (dest_uris g) : gset string) =
      {[ "external/first.txt"; "external/second.txt" ]}
  ∧ "external/nested/second.txt" ∉ dest_uris g.
Proof.
  split; [by vm_compute|]. split.
  - by vm_compute.
  - vm_compute. intros Hin. repeat (apply elem_of_cons in Hin as [[=] | Hin]).
    by apply elem_of_nil in Hin.
Qed.

(** C3, on the code.  A [dest] that starts with a backslash is not
    absolute for [pathlib], so it passes the check; turning its
    backslashes into slashes then yields a URI that starts at the
    root. *)
Theorem backslash_rooted_dest_yields_absolute_uri :
  let item := {| src := "a.txt"; dest := String backslash "abs.txt" |} in
  PurePosixPath.is_absolute (Path (dest item)) = false
  ∧ to_list (_expand_items (plugin [item]) (PosixFS.host two_files_tree)) =
      Returned [(Path "/proj/a.txt", "/abs.txt")]
  ∧ ¬ relative_uri "/abs.txt".
Proof. repeat split; [by vm_compute..|]. by vm_compute. Qed.

End Concrete.

(** ** Counterexamples to the claims as first stated *)

Section Counterexamples.
Import Fixtures.

(** C5 as stated fails: for the literal entry with [dest]
    [.\external\a.txt] the URI is [external/a.txt], not the [dest]
    with its backslashes turned into slashes. *)
Lemma literal_dest_not_plain_conversion :
  has_glob_char (src dotted_dest) = false
  ∧ PurePosixPath.is_absolute (Path (dest dotted_dest)) = false
  ∧ to_list (_expand_items (plugin [dotted_dest]) (PosixFS.host two_files_tree)) =
      Returned [(Path "/proj/a.txt", "external/a.txt")]
  ∧ PyStr.replace backslash slash (dest dotted_dest) = "./external/a.txt"
  ∧ "external/a.txt" ≠ PyStr.replace backslash slash (dest dotted_dest).
Proof. repeat split; by vm_compute. Qed.

(** C6 as stated fails: when the missing source comes second,
    [on_files] raises [FileNotFoundError] after it has inserted the
    entry of the first pair. *)
Lemma missing_source_after_staged_pair :
  let r := on_files (PosixFS.host two_files_tree) (plugin [a_to_x; missing_to_y])
             build_config empty_heap in
  snd r = Raised (Exn FileNotFoundError "/proj/missing.txt")
  ∧ get_file_from_path (collection empty_heap) "x.txt" = None
  ∧ get_file_from_path (collection (fst r)) "x.txt" =
      Some (generated build_config "x.txt" "/proj/a.txt" 1)
  ∧ collection (fst r) ≠ collection empty_heap.
Proof.
  repeat split; [by vm_compute..|].
  intros Heq. apply (f_equal (λ c, get_file_from_path c "x.txt")) in Heq.
  by vm_compute in Heq.
Qed.

(** C7 as stated fails: two pairs with existing sources share the
    URI [x.txt]; after [on_files] returns, the entry under it is
    bound to the source of the second pair, not of the first. *)
Lemma earlier_pair_overwritten :
  let self := plugin [a_to_x; b_to_x] in
  let h := PosixFS.host two_files_tree in
  let r := on_files h self build_config empty_heap in
  yielded (_expand_items self h) =
    [(Path "/proj/a.txt", "x.txt"); (Path "/proj/b.txt", "x.txt")]
  ∧ exists_ h (Path "/proj/a.txt") = true
  ∧ snd r = Returned 0
  ∧ abs_src_path <$> get_file_from_path (collection (fst r)) "x.txt" =
      Some (Some "/proj/b.txt")
  ∧ abs_src_path <$> get_file_from_path (collection (fst r)) "x.txt" ≠
      Some (Some "/proj/a.txt").
Proof. repeat split; by vm_compute. Qed.

End Counterexamples.

(** ** The theorems at work on the fixtures *)

Section Witnesses.
Import Fixtures.

Lemma well_formed_singleton oid f n :
  file_oid f < n →
  well_formed {| collection := {| files_oid := oid;
                                  _src_uris := {[ src_uri f := f ]} |};
                 next_oid := n |}.
Proof.
  intros Hlt k g. simpl. intros [<- <-]%lookup_singleton_Some. done.
Qed.

Lemma glob_requires_directory_dest_witness :
  has_glob_char (src bare_glob) = true
  ∧ ends_with_separator (dest bare_glob) = false
  ∧ ∃ e, to_list (_expand_items (plugin [bare_glob]) (PosixFS.host two_files_tree))
         = Raised e ∧ exn_class e = ValueError.
Proof.
  split; [reflexivity|]. split; [reflexivity|].
  destruct (glob_requires_directory_dest (plugin [bare_glob])
              (PosixFS.host two_files_tree) [] bare_glob []
              eq_refl eq_refl eq_refl) as (_ & _ & Hraise).
  apply Hraise. reflexivity.
Defined.

Lemma literal_entry_pair_witness :
  has_glob_char (src a_to_x) = false
  ∧ PurePosixPath.is_absolute (Path (dest a_to_x)) = false
  ∧ _expand_items (plugin [a_to_x]) (PosixFS.host two_files_tree) =
      Yield (Path "/proj/a.txt", "x.txt") Stop.
Proof.
  split; [reflexivity|]. split; [reflexivity|].
  destruct (literal_entry_pair (plugin [a_to_x]) (PosixFS.host two_files_tree)
              [] a_to_x [] (Path "/proj")
              eq_refl eq_refl eq_refl (or_intror eq_refl)) as (_ & Hgen & _).
  exact Hgen.
Defined.

Lemma missing_source_raises_witness :
  let h := PosixFS.host two_files_tree in
  let self := plugin [a_to_x; missing_to_y] in
  let pre := [(Path "/proj/a.txt", "x.txt")] in
  let hp1 := stage_list build_config empty_heap pre in
  exists_ h (Path "/proj/missing.txt") = false
  ∧ on_files h self build_config empty_heap =
      (hp1, Raised (Exn FileNotFoundError "/proj/missing.txt")).
Proof.
  intros h self pre hp1. split; [reflexivity|].
  apply (missing_source_raises h self build_config empty_heap pre
           (Path "/proj/missing.txt") "y.txt" Stop hp1 1);
    vm_compute; reflexivity.
Defined.

Lemma staging_replaces_entry_witness :
  let h := PosixFS.host readme_tree in
  let self := plugin [readme] in
  let hp' := fst (on_files h self build_config readme_heap) in
  well_formed readme_heap
  ∧ on_files h self build_config readme_heap = (hp', Returned 0)
  ∧ ∃ f, get_file_from_path (collection hp') "external/README.md" = Some f
         ∧ abs_src_path f = Some "/proj/README.md"
         ∧ file_oid existing_readme ≠ file_oid f.
Proof.
  intros h self hp'.
  assert (well_formed readme_heap) as Hwf.
  { apply (well_formed_singleton 0 existing_readme 2). simpl. lia. }
  assert (on_files h self build_config readme_heap = (hp', Returned 0)) as Hrun.
  { vm_compute. reflexivity. }
  split; [exact Hwf|]. split; [exact Hrun|].
  destruct (staging_replaces_entry h self build_config readme_heap hp' 0 Hwf Hrun)
    as [_ Hall].
  destruct (Hall (Path "/proj/README.md") "external/README.md")
    as (_ & f & s' & Hlast & Hget & _ & Habs & Hnew & _).
  { vm_compute. apply list_elem_of_here. }
  exists f. split; [exact Hget|]. split.
  - vm_compute in Hlast. injection Hlast as <-. exact Habs.
  - apply (Hnew "external/README.md"). reflexivity.
Defined.

Lemma on_config_disabled_witness :
  let self := {| config := {| enabled := false; files := [] |}; config_dir := None |} in
  let h := PosixFS.host two_files_tree in
  plugin_enabled self = false
  ∧ on_config h self build_config = (self, Returned build_config)
  ∧ config_dir (fst (on_config h self build_config)) = None.
Proof.
  intros self h. split; [reflexivity|].
  apply (on_config_disabled h self build_config). reflexivity.
Defined.

Lemma empty_files_no_effect_witness :
  let h := PosixFS.host two_files_tree in
  on_files h (plugin []) build_config readme_heap = (readme_heap, Returned 0)
  ∧ on_serve h (plugin []) dummy_server = (dummy_server, Returned 7).
Proof.
  intros h. apply (empty_files_no_effect h (plugin []) build_config readme_heap
                     dummy_server).
  reflexivity.
Defined.

End Witnesses.


(** * Further properties of the hooks *)

(** ** The loop of [on_files], in full *)

Section StagingFacts.
Context (h : Host).

Lemma staged_prefix_yielded g : staged_prefix h g `prefix_of` yielded g.
Proof.
  induction g as [pr g IH| |e]; simpl; [|apply prefix_nil..].
  destruct (exists_ h (fst pr)); [by apply prefix_cons|apply prefix_nil].
Qed.

Lemma staged_prefix_all g :
  staging_error h g = None → staged_prefix h g = yielded g.
Proof.
  induction g as [pr g IH| |e]; simpl; [|done..].
  destruct (exists_ h (fst pr)); [|done]. intros Hg. by rewrite IH.
Qed.

Lemma staging_error_None g :
  staging_error h g = None ↔
  raised g = None ∧ Forall (λ pr, exists_ h (fst pr) = true) (yielded g).
Proof.
  induction g as [pr g IH| |e]; simpl.
  - destruct (exists_ h (fst pr)) eqn:Hex.
    + rewrite IH. split.
      * intros [? ?]. split; [done|]. by constructor.
      * intros [? Hall]. split; [done|]. by inversion Hall.
    + split; [done|]. intros [_ Hall]. inversion Hall; congruence.
  - split; [by split|done].
  - split; [done|]. by intros [? ?].
Qed.

(** In a well-formed heap, the loop of [on_files] stages the pairs
    in order up to the first failure. *)
Lemma stage_all_eq cfg g hp n :
  well_formed hp →
  stage_all h cfg g hp n =
  (stage_list cfg hp (staged_prefix h g),
   match staging_error h g with
   | None => Returned (n + length (staged_prefix h g))
   | Some e => Raised e
   end).
Proof.
  revert hp n. induction g as [[s d] g IH| |e]; intros hp n Hwf;
    cbn [stage_all staged_prefix staging_error fst].
  - destruct (exists_ h s) eqn:Hex.
    + rewrite stage_pair_existing by done.
      rewrite IH by by apply stage_pair_well_formed.
      cbn [length]. unfold stage_list. cbn [foldl].
      replace (S n + length (staged_prefix h g))
        with (n + S (length (staged_prefix h g))) by lia.
      done.
    + by rewrite stage_pair_missing.
  - f_equal. f_equal. simpl. lia.
  - done.
Qed.

Lemma on_files_eq self cfg hp :
  well_formed hp →
  on_files h self cfg hp =
  (stage_list cfg hp (staged_prefix h (_expand_items self h)),
   match staging_error h (_expand_items self h) with
   | None => Returned (files_oid (collection hp))
   | Some e => Raised e
   end).
Proof.
  intros Hwf. unfold on_files. rewrite stage_all_eq by done.
  destruct (staging_error h _); [done|]. f_equal. f_equal.
  generalize (staged_prefix h (_expand_items self h)) as l. clear Hwf.
  intros l. revert hp. induction l as [|pr l IH]; intros hp; [done|].
  unfold stage_list in *. simpl. by rewrite IH.
Qed.

Lemma stage_list_well_formed cfg l hp :
  well_formed hp → well_formed (stage_list cfg hp l).
Proof.
  revert hp. induction l as [|pr l IH]; intros hp Hwf; [done|].
  unfold stage_list in *. simpl. by apply IH, stage_existing_well_formed.
Qed.

Lemma stage_list_files_oid cfg l hp :
  files_oid (collection (stage_list cfg hp l)) = files_oid (collection hp).
Proof.
  revert hp. induction l as [|pr l IH]; intros hp; [done|].
  unfold stage_list in *. simpl. by rewrite IH.
Qed.

(** The keys after staging a list: those before and the URIs staged. *)
Lemma stage_list_dom cfg l hp :
  dom (_src_uris (collection (stage_list cfg hp l))) =
  dom (_src_uris (collection hp)) ∪ list_to_set (map (λ pr, uri_of (snd pr)) l).
Proof.
  revert hp. induction l as [|pr l IH]; intros hp.
  - simpl. by rewrite (right_id_L ∅ (∪)).
  - unfold stage_list in *. cbn [foldl]. rewrite IH. simpl.
    rewrite dom_insert_L. apply set_eq. intros x.
    rewrite !elem_of_union. tauto.
Qed.

End StagingFacts.

Section StagingProperties.
Context (h : Host).

Lemma map_uri_of_keys (l : list Pair) :
  (∀ pr, pr ∈ l → uri_of (snd pr) = snd pr) →
  map (λ pr : Pair, uri_of (snd pr)) l = map snd l.
Proof.
  induction l as [|pr l IH]; intros Hkeys; simpl; [done|].
  rewrite Hkeys by apply list_elem_of_here.
  rewrite IH; [done|]. intros pr' Hin. apply Hkeys. by apply list_elem_of_further.
Qed.

Lemma yielded_keys self pr :
  pr ∈ yielded (_expand_items self h) → uri_of (snd pr) = snd pr.
Proof. destruct pr as [s u]. apply yielded_uri_key. Qed.

Lemma staged_prefix_keys self pr :
  pr ∈ staged_prefix h (_expand_items self h) → uri_of (snd pr) = snd pr.
Proof.
  intros Hin. apply (yielded_keys self).
  destruct (staged_prefix_yielded h (_expand_items self h)) as [l ->].
  apply elem_of_app. by left.
Qed.

(** X1.  [on_files] keeps the invariants of the collection, whether it
    returns or raises: entries stay filed under their own [src_uri],
    every object is older than the allocator, and the collection is
    the same object. *)
Theorem on_files_keeps_well_formed self cfg hp :
  well_formed hp →
  well_formed (fst (on_files h self cfg hp))
  ∧ files_oid (collection (fst (on_files h self cfg hp))) = files_oid (collection hp)
  ∧ next_oid hp ≤ next_oid (fst (on_files h self cfg hp)).
Proof.
  intros Hwf. rewrite on_files_eq by done. cbn [fst].
  split; [by apply stage_list_well_formed|].
  split; [apply stage_list_files_oid|].
  rewrite stage_list_next_oid. lia.
Qed.

(** X2.  [on_files] touches nothing but the URIs it expands: whether
    it returns or raises, an entry filed under any other key is still
    there, unchanged, and no key disappears. *)
Theorem on_files_frame self cfg hp :
  well_formed hp →
  (∀ k, k ∉ dest_uris (_expand_items self h) →
     _src_uris (collection (fst (on_files h self cfg hp))) !! k =
     _src_uris (collection hp) !! k)
  ∧ dom (_src_uris (collection hp)) ⊆
      dom (_src_uris (collection (fst (on_files h self cfg hp)))).
Proof.
  intros Hwf. rewrite on_files_eq by done. cbn [fst]. split.
  - intros k Hk. apply stage_list_lookup_other.
    rewrite map_uri_of_keys by apply staged_prefix_keys.
    intros Hin. apply Hk. unfold dest_uris.
    destruct (staged_prefix_yielded h (_expand_items self h)) as [l ->].
    rewrite map_app. apply elem_of_app. by left.
  - rewrite stage_list_dom. apply union_subseteq_l.
Qed.

(** X3.  In a well-formed heap [on_files] returns exactly when the
    expansion ends without raising and every expanded source exists.
    It then returns the collection it was given, has allocated one
    object per pair, and the keys of the collection are the old keys
    and the expanded URIs. *)
Theorem on_files_returns_iff self cfg hp :
  well_formed hp →
  ((∃ hp' r, on_files h self cfg hp = (hp', Returned r)) ↔
   raised (_expand_items self h) = None
   ∧ Forall (λ pr, exists_ h (fst pr) = true) (yielded (_expand_items self h)))
  ∧ ∀ hp' r, on_files h self cfg hp = (hp', Returned r) →
      r = files_oid (collection hp)
      ∧ next_oid hp' = next_oid hp + length (yielded (_expand_items self h))
      ∧ dom (_src_uris (collection hp')) =
          dom (_src_uris (collection hp))
          ∪ list_to_set (dest_uris (_expand_items self h)).
Proof.
  intros Hwf. rewrite on_files_eq by done. rewrite <- staging_error_None.
  split.
  - split.
    + intros (hp' & r & Heq). by destruct (staging_error h _).
    + intros ->. eauto.
  - intros hp' r Heq.
    destruct (staging_error h (_expand_items self h)) eqn:Herr; [done|].
    injection Heq as <- <-. rewrite staged_prefix_all by done.
    split; [done|]. split; [apply stage_list_next_oid|].
    rewrite stage_list_dom. unfold dest_uris.
    by rewrite map_uri_of_keys by apply yielded_keys.
Qed.

(** X4.  Staging is repeatable: when [on_files] has returned, running
    it again on the result returns again, and every entry of the
    collection is as before except for the identity of the objects it
    generated anew. *)
Theorem on_files_twice self cfg hp hp1 r :
  well_formed hp →
  on_files h self cfg hp = (hp1, Returned r) →
  ∃ hp2,
    on_files h self cfg hp1 = (hp2, Returned r)
    ∧ ∀ k, forget_oid <$> (_src_uris (collection hp2) !! k) =
           forget_oid <$> (_src_uris (collection hp1) !! k).
Proof.
  intros Hwf. rewrite on_files_eq by done.
  destruct (staging_error h (_expand_items self h)) eqn:Herr; [done|].
  rewrite staged_prefix_all by done. intros [= <- <-].
  set (l := yielded (_expand_items self h)).
  assert (∀ pr, pr ∈ l → uri_of (snd pr) = snd pr) as Hkeys
    by apply yielded_keys.
  eexists. split.
  { rewrite on_files_eq by by apply stage_list_well_formed.
    rewrite Herr, staged_prefix_all by done.
    by rewrite stage_list_files_oid. }
  fold l. intros k. destruct (decide (k ∈ map snd l)) as [Hk | Hk].
  - destruct (last_occurrence k l Hk) as (l1 & s' & l2 & Hl & Hl2).
    assert (uri_of k = k) as Hkey.
    { apply (Hkeys (s', k)). rewrite Hl. apply elem_of_app. right.
      apply list_elem_of_here. }
    assert (k ∉ map (λ pr : Pair, uri_of (snd pr)) l2) as Hl2'.
    { rewrite map_uri_of_keys; [done|]. intros pr Hin. apply Hkeys.
      rewrite Hl. apply elem_of_app. right. by apply list_elem_of_further. }
    rewrite Hl. by rewrite !stage_list_lookup_last by done.
  - rewrite stage_list_lookup_other; [done|].
    by rewrite map_uri_of_keys.
Qed.

Lemma stage_all_count cfg g hp m hp' n :
  stage_all h cfg g hp m = (hp', Returned n) → n = m + length (yielded g).
Proof.
  revert hp m. induction g as [pr g IH| |e]; intros hp m; simpl.
  - destruct (stage_pair h cfg pr hp) as [hp1 [[]|e']]; [|done].
    intros ->%IH. lia.
  - intros [= _ <-]. lia.
  - done.
Qed.

(** X5.  A configuration error in a later entry does not undo the
    earlier ones: when the expansion raises after yielding some pairs
    whose sources exist, [on_files] raises that exception with those
    pairs already staged. *)
Theorem expansion_error_after_staged_pairs self cfg hp pre e hp1 n :
  _expand_items self h = yield_all pre (Throw e) →
  stage_all h cfg (yield_all pre Stop) hp 0 = (hp1, Returned n) →
  on_files h self cfg hp = (hp1, Raised e) ∧ n = length pre.
Proof.
  intros Hgen Hpre. split.
  - unfold on_files. by rewrite Hgen, yield_all_then, stage_all_then, Hpre.
  - apply stage_all_count in Hpre. rewrite yielded_yield_all in Hpre.
    simpl in Hpre. by rewrite app_nil_r in Hpre.
Qed.

End StagingProperties.

(** ** The expander and the hooks around it *)

Section ExpansionProperties.
Context (h : Host).

(** The expander raises a [ValueError], or an [AttributeError] when
    [config_dir] was never set. *)
Lemma expand_raises_class self items e :
  raised (expand_from self h items) = Some e →
  exn_class e = ValueError
  ∨ (config_dir self = None ∧ e = Exn AttributeError "config_dir").
Proof.
  induction items as [|item items IH]; simpl; [done|].
  destruct (PurePosixPath.is_absolute _); [intros [= <-]; by left|].
  destruct (has_glob_char _).
  - destruct (negb _); [intros [= <-]; by left|].
    unfold glob_pattern, get_config_dir.
    destruct (PurePosixPath.is_absolute _).
    + by rewrite raised_yield_all.
    + destruct (config_dir self) eqn:Hdir.
      * by rewrite raised_yield_all.
      * intros [= <-]. by right.
  - unfold literal_pair, get_config_dir.
    destruct (PurePosixPath.is_absolute _); [done|].
    destruct (config_dir self) eqn:Hdir; [done|].
    intros [= <-]. by right.
Qed.



(** X8.  The entries are expanded in the order of the configuration,
    and an entry that raises hides every entry after it: the pairs of
    [pre ++ post] are those of [pre] followed, unless [pre] raised, by
    those of [post]. *)
Theorem expansion_follows_configuration_order self pre post :
  files (config self) = pre ++ post →
  yielded (_expand_items self h) =
    yielded (expand_from self h pre)
    ++ match raised (expand_from self h pre) with
       | None => yielded (expand_from self h post)
       | Some _ => []
       end
  ∧ raised (_expand_items self h) =
      match raised (expand_from self h pre) with
      | None => raised (expand_from self h post)
      | Some e => Some e
      end.
Proof.
  intros Hfiles. unfold _expand_items.
  rewrite Hfiles, expand_from_app. split; [apply yielded_then|apply raised_then].
Qed.

Lemma glob_pairs_sources pattern d :
  map fst (glob_pairs h pattern d) =
  List.filter (is_file h) (map (λ p, resolve h (Path p)) (glob h pattern)).
Proof.
  unfold glob_pairs.
  induction (map (λ p, resolve h (Path p)) (glob h pattern)) as [|s l IH];
    simpl; [done|].
  destruct (is_file h s); simpl; by rewrite IH.
Qed.

(** X9.  A glob entry with a relative, directory-style [dest] never
    raises for want of a match: it yields one pair for each match of
    the pattern that resolves to a regular file, in the order of the
    matches, and nothing at all when nothing matches; the expansion
    then goes on with the next entry. *)
Theorem glob_entry_sources self item rest d :
  PurePosixPath.is_absolute (Path (dest item)) = false →
  has_glob_char (src item) = true →
  ends_with_separator (dest item) = true →
  PurePosixPath.is_absolute (Path (src item)) = true ∨ config_dir self = Some d →
  let pattern := if PurePosixPath.is_absolute (Path (src item)) then src item
                 else PurePosixPath.str (resolve h (d </> src item)) in
  ∃ pairs,
    expand_from self h (item :: rest) = yield_all pairs (expand_from self h rest)
    ∧ map fst pairs =
        List.filter (is_file h) (map (λ p, resolve h (Path p)) (glob h pattern))
    ∧ (glob h pattern = [] → pairs = []).
Proof.
  intros Hdest Hglob Hsep Hdir pattern.
  exists (glob_pairs h pattern (dest item)). split; [|split].
  - cbn [expand_from]. rewrite Hdest, Hglob. unfold ends_with_separator in Hsep.
    rewrite Hsep. cbn [negb]. unfold glob_pattern, get_config_dir. subst pattern.
    destruct Hdir as [-> | ->]; [done|].
    by destruct (PurePosixPath.is_absolute (Path (src item))).
  - apply glob_pairs_sources.
  - unfold glob_pairs. by intros ->.
Qed.

Lemma glob_pairs_files pattern d pr :
  pr ∈ glob_pairs h pattern d → is_file h (fst pr) = true.
Proof.
  unfold glob_pairs. intros (m & _ & Hin)%list_elem_of_In%in_flat_map.
  destruct (is_file h m) eqn:Hm; [|done]. by destruct Hin as [<- | []].
Qed.

Lemma glob_only_sources_are_files self items pr :
  Forall (λ item, has_glob_char (src item) = true) items →
  pr ∈ yielded (expand_from self h items) → is_file h (fst pr) = true.
Proof.
  induction 1 as [|item items Hglob _ IH]; cbn [expand_from yielded];
    [by intros ?%elem_of_nil|].
  rewrite Hglob.
  destruct (PurePosixPath.is_absolute _); [by intros ?%elem_of_nil|].
  destruct (negb _); [by intros ?%elem_of_nil|].
  destruct (glob_pattern _ _ _) as [pattern|e]; [|by intros ?%elem_of_nil].
  rewrite yielded_yield_all. intros [Hin | Hin]%elem_of_app; [|auto].
  by eapply glob_pairs_files.
Qed.

(** A pair whose source exists is staged, or [remove] raises a
    [ValueError] in a collection that is not well formed. *)
Lemma stage_pair_raises cfg pr hp hp' e :
  exists_ h (fst pr) = true →
  stage_pair h cfg pr hp = (hp', Raised e) → exn_class e = ValueError.
Proof.
  destruct pr as [s d]. simpl. intros Hex. unfold stage_pair. rewrite Hex. simpl.
  destruct (get_file_from_path _ _) as [existing|]; [|done].
  unfold remove. destruct (_ !! _); [done|]. by intros [= _ <-].
Qed.

Lemma stage_all_raises cfg g hp n hp' e :
  Forall (λ pr, exists_ h (fst pr) = true) (yielded g) →
  stage_all h cfg g hp n = (hp', Raised e) →
  raised g = Some e ∨ exn_class e = ValueError.
Proof.
  revert hp n. induction g as [pr g IH| |e0]; intros hp n Hall; simpl.
  - inversion_clear Hall as [|?? Hex Hrest].
    destruct (stage_pair h cfg pr hp) as [hp1 [[]|e1]] eqn:Hstep.
    + by apply IH.
    + intros [= _ <-]. right. by eapply stage_pair_raises.
  - done.
  - intros [= _ <-]. by left.
Qed.

(** X10.  On a host where every regular file exists, a configuration
    made of glob entries only can never make [on_files] raise
    [FileNotFoundError]: a glob yields nothing but regular files. *)
Theorem glob_entries_never_missing self cfg hp hp' e :
  coherent h →
  Forall (λ item, has_glob_char (src item) = true) (files (config self)) →
  on_files h self cfg hp = (hp', Raised e) →
  exn_class e ≠ FileNotFoundError.
Proof.
  intros Hco Hglob. unfold on_files.
  destruct (stage_all h cfg (_expand_items self h) hp 0) as [hp1 [m|e1]] eqn:Hrun;
    [done|].
  intros [= _ <-]. apply stage_all_raises in Hrun as [Hr | Hcls].
  - apply expand_raises_class in Hr as [Hcls | [_ ->]]; [by rewrite Hcls|done].
  - by rewrite Hcls.
  - apply Forall_forall. intros pr Hin. apply Hco.
    by apply (glob_only_sources_are_files self (files (config self))).
Qed.

(** X11.  What the build stages, the server watches: when [on_files]
    returns, [on_serve] on a watcher that refuses nothing registers
    the source of every expanded pair, in order, and the source bound
    to each expanded URI in the collection is among them. *)
Theorem staged_sources_are_watched self cfg hp hp' r server :
  well_formed hp →
  on_files h self cfg hp = (hp', Returned r) →
  (∀ p, refuses server p = None) →
  ∃ server',
    on_serve h self server = (server', Returned (server_oid server))
    ∧ watched server' =
        watched server
        ++ map (λ pr, PurePosixPath.str (fst pr)) (yielded (_expand_items self h))
    ∧ ∀ d f, d ∈ dest_uris (_expand_items self h) →
        get_file_from_path (collection hp') d = Some f →
        ∃ p, abs_src_path f = Some p ∧ p ∈ watched server'.
Proof.
  intros Hwf Hrun Hnone. rewrite on_files_eq in Hrun by done.
  destruct (staging_error h (_expand_items self h)) eqn:Herr; [done|].
  rewrite staged_prefix_all in Hrun by done. injection Hrun as <- _.
  apply staging_error_None in Herr as [_ Hall].
  set (g := _expand_items self h) in *.
  assert (existing_sources h g = map (λ pr, PurePosixPath.str (fst pr)) (yielded g))
    as Hsrc.
  { unfold existing_sources. clear -Hall.
    induction Hall as [|pr l Hex _ IH]; simpl; [done|]. rewrite Hex. simpl.
    by rewrite IH. }
  destruct (watch_all_spec h g server) as (l & Hw & Ho & _ & Hl).
  specialize (Hl Hnone). subst l. rewrite Hsrc in Hw.
  unfold on_serve, on_serve_with, except_Exception_pass. fold g.
  destruct (watch_all h g server) as [server' [[]|e]]; simpl in *;
    (exists server'; rewrite Ho; split; [done|]; split; [done|]).
  all: intros d f Hd Hget.
  all: destruct (last_occurrence d (yielded g) Hd) as (l1 & s' & l2 & Hl & Hl2).
  all: assert (∀ pr, pr ∈ yielded g → uri_of (snd pr) = snd pr) as Hkeys
         by apply yielded_keys.
  all: assert (uri_of d = d) as Hkey
         by (apply (Hkeys (s', d)); rewrite Hl; apply elem_of_app; right;
             apply list_elem_of_here).
  all: assert (d ∉ map (λ pr : Pair, uri_of (snd pr)) l2) as Hl2'
         by (rewrite map_uri_of_keys; [done|]; intros pr Hin; apply Hkeys;
             rewrite Hl; apply elem_of_app; right; by apply list_elem_of_further).
  all: unfold get_file_from_path in Hget; rewrite Hkey, Hl in Hget.
  all: rewrite stage_list_lookup_last in Hget by done; injection Hget as <-.
  all: exists (PurePosixPath.str s'); split; [done|].
  all: rewrite Hw, Hl, map_app; apply elem_of_app; right; apply elem_of_app; right.
  all: apply list_elem_of_here.
Qed.

End ExpansionProperties.

(** ** The shape of the destination URIs *)

Section UriFacts.
Import PurePosixPath.

Lemma startswith_slash_app a b :
  PyStr.startswith (a +:+ b) "/" =
  if PyStr.eqb a "" then PyStr.startswith b "/" else PyStr.startswith a "/".
Proof. by destruct a. Qed.

Lemma component_relative w : component w → PyStr.startswith w "/" = false.
Proof.
  intros Hw. rewrite <- (append_nil_r w). by apply component_not_slash_first.
Qed.

Lemma format_relative tail :
  Forall component tail → PyStr.startswith (format "" tail) "/" = false.
Proof.
  intros Htail. unfold format, format_parsed_parts. rewrite append_nil_l.
  pose proof (join_not_slash_first tail Htail) as Hj.
  by destruct (PyStr.join "/" tail).
Qed.

(** The normal form of a relative path is relative. *)
Lemma as_posix_relative raw :
  PyStr.startswith raw "/" = false →
  PyStr.startswith (as_posix (Path raw)) "/" = false.
Proof.
  intros Hrel. unfold as_posix, str, parse, splitroot. cbn [PurePosixPath.raw].
  rewrite Hrel. cbn [negb]. apply format_relative, filter_kept_components, split_no_sep.
Qed.

Lemma rstrip_relative chars s :
  PyStr.startswith s "/" = false →
  PyStr.startswith (PyStr.rstrip chars s) "/" = false.
Proof.
  destruct s as [|a s]; [done|]. simpl.
  destruct (PyStr.rstrip chars s); [|done].
  by destruct (bool_decide (a ∈ chars)).
Qed.

Lemma last_Forall {A} (P : A → Prop) (l : list A) (d : A) :
  Forall P l → P d → P (List.last l d).
Proof.
  induction 1 as [|x l Hx Hl IH]; intros Hd; [done|].
  simpl. destruct l; [done|]. by apply IH.
Qed.

Lemma name_relative p : PyStr.startswith (name p) "/" = false.
Proof.
  unfold name.
  apply (last_Forall (λ w, PyStr.startswith w "/" = false)); [|done].
  eapply Forall_impl; [apply parse_tail_components|]. apply component_relative.
Qed.

Lemma posix_join_relative a b :
  PyStr.startswith a "/" = false → PyStr.startswith b "/" = false →
  PyStr.startswith (posix_join a b) "/" = false.
Proof.
  intros Ha Hb. unfold posix_join. rewrite Hb.
  destruct (PyStr.eqb a "" || PyStr.endswith a "/") eqn:E.
  - rewrite startswith_slash_app. by destruct (PyStr.eqb a "").
  - apply orb_false_iff in E as [E _]. by rewrite startswith_slash_app, E.
Qed.

Lemma replace_relative d :
  PyStr.startswith d "/" = false →
  PyStr.startswith d (PyStr.chr backslash) = false →
  PyStr.startswith (PyStr.replace backslash slash d) "/" = false.
Proof.
  destruct d as [|a d]; [done|]. simpl. rewrite !andb_true_r.
  intros Hs Hb. by case_bool_decide.
Qed.

Lemma contains_app c a b :
  PyStr.contains c (a +:+ b) = PyStr.contains c a || PyStr.contains c b.
Proof.
  induction a as [|x a IH]; simpl; [done|]. by rewrite IH, orb_assoc.
Qed.

Lemma contains_replace old new s :
  old ≠ new → PyStr.contains old (PyStr.replace old new s) = false.
Proof.
  intros Hne. induction s as [|a s IH]; simpl; [done|]. rewrite IH, orb_false_r.
  apply bool_decide_eq_false. case_bool_decide; congruence.
Qed.

Lemma contains_split c sep s :
  PyStr.contains c s = false →
  Forall (λ w, PyStr.contains c w = false) (PyStr.split sep s).
Proof.
  induction s as [|a s IH]; simpl; intros Hc; [by constructor|].
  apply orb_false_iff in Hc as [Ha Hs]. specialize (IH Hs).
  destruct (bool_decide (a = sep)); [by constructor|].
  destruct (PyStr.split sep s) as [|w ws].
  - constructor; [|done]. simpl. by rewrite Ha.
  - inversion_clear IH. constructor; [|done]. simpl. by rewrite Ha.
Qed.

Lemma contains_join c sep parts :
  PyStr.contains c sep = false →
  Forall (λ w, PyStr.contains c w = false) parts →
  PyStr.contains c (PyStr.join sep parts) = false.
Proof.
  intros Hsep. induction 1 as [|w ws Hw Hws IH]; [done|].
  destruct ws as [|w' ws]; [done|].
  change (PyStr.join sep (w :: w' :: ws))
    with (w +:+ sep +:+ PyStr.join sep (w' :: ws)).
  by rewrite !contains_app, Hw, Hsep, IH.
Qed.

Lemma contains_drop1 c s :
  PyStr.contains c s = false → PyStr.contains c (PyStr.drop1 s) = false.
Proof. destruct s; simpl; [done|]. by intros [_ ?]%orb_false_iff. Qed.

(** Normalisation brings in no character but the slash and the dot. *)
Lemma contains_as_posix c s :
  c ≠ "/"%char → c ≠ "."%char →
  PyStr.contains c s = false → PyStr.contains c (as_posix (Path s)) = false.
Proof.
  intros Hslash Hdot Hs. unfold as_posix, str, parse. cbn [raw].
  assert (PyStr.contains c (fst (splitroot s)) = false
          ∧ PyStr.contains c (snd (splitroot s)) = false) as [Hroot Hrel].
  { unfold splitroot.
    destruct (negb (PyStr.startswith s "/")); [done|].
    destruct (negb _ || _); simpl; rewrite !bool_decide_eq_false_2 by done;
      auto using contains_drop1. }
  destruct (splitroot s) as [root rel]. simpl in *.
  unfold format, format_parsed_parts.
  assert (PyStr.contains c
            (root +:+ PyStr.join "/"
               (filter (λ x, Is_true (kept x)) (PyStr.split slash rel))) = false)
    as Hall.
  { rewrite contains_app, Hroot. simpl. apply contains_join.
    - simpl. by rewrite bool_decide_eq_false_2.
    - apply Forall_forall. intros w [_ Hw]%list_elem_of_filter.
      revert w Hw. apply Forall_forall. by apply contains_split. }
  destruct (root +:+ _); [|done]. simpl. by rewrite bool_decide_eq_false_2.
Qed.

Lemma split_app sep a b :
  PyStr.split sep (a +:+ PyStr.chr sep +:+ b) = PyStr.split sep a ++ PyStr.split sep b.
Proof.
  induction a as [|x a IH]; simpl.
  - by rewrite bool_decide_eq_true_2.
  - destruct (bool_decide (x = sep)); [by rewrite IH|].
    rewrite IH. pose proof (split_nonempty sep a) as Hne.
    by destruct (PyStr.split sep a).
Qed.

Lemma append_empty a b : a +:+ b = "" → a = "" ∧ b = "".
Proof. by destruct a. Qed.

Lemma join_components_nonempty tail :
  tail ≠ [] → Forall component tail → PyStr.join "/" tail ≠ "".
Proof.
  intros Hne Htail. destruct Htail as [|w ws [Hk _] _]; [done|].
  assert (w ≠ "") as Hw by (intros ->; by apply Is_true_true in Hk).
  destruct ws as [|w' ws]; [done|].
  change (PyStr.join "/" (w :: w' :: ws))
    with (w +:+ "/" +:+ PyStr.join "/" (w' :: ws)).
  by intros [? _]%append_empty.
Qed.

(** The tail of a formatted path is the tail it was formatted from. *)
Lemma parse_format_tail root tail :
  is_root root → tail ≠ [] → Forall component tail →
  parse (format root tail) = (root, tail).
Proof.
  intros Hroot Hne Htail. unfold format.
  destruct (format_parsed_parts root tail) as [|a s] eqn:E.
  - unfold format_parsed_parts in E. apply append_empty in E as [_ E].
    by apply join_components_nonempty in E.
  - rewrite <- E. by apply parse_format_parsed_parts.
Qed.

Lemma endswith_slash_split a :
  PyStr.endswith a "/" = true → ∃ a', a = a' +:+ "/".
Proof.
  induction a as [|x a IH]; simpl; [done|].
  intros [Heq | Hend]%orb_true_iff.
  - apply eqb_true in Heq. exists "". by rewrite Heq.
  - destruct (IH Hend) as [a' ->]. by exists (String x a').
Qed.

Lemma filter_kept_app l1 l2 :
  filter (λ x, Is_true (kept x)) (l1 ++ l2) =
  filter (λ x, Is_true (kept x)) l1 ++ filter (λ x, Is_true (kept x)) l2.
Proof. apply filter_app. Qed.

(** A trailing slash does not change the normal form. *)
Lemma as_posix_trailing_slash s :
  s ≠ "" → PyStr.startswith s "/" = false →
  as_posix (Path (s +:+ "/")) = as_posix (Path s).
Proof.
  intros Hne Hrel. unfold as_posix, str, parse, splitroot. cbn [raw].
  rewrite startswith_slash_app, Hrel.
  destruct (PyStr.eqb s "") eqn:E; [by apply eqb_true in E|]. cbn [negb].
  change (s +:+ "/") with (s +:+ PyStr.chr slash +:+ "").
  rewrite split_app, filter_kept_app. simpl. by rewrite app_nil_r.
Qed.

End UriFacts.

Section UriProperties.
Context (h : Host).

Lemma glob_pairs_relative pattern d pr :
  PurePosixPath.is_absolute (Path d) = false →
  pr ∈ glob_pairs h pattern d → relative_uri (snd pr).
Proof.
  unfold glob_pairs, relative_uri, PurePosixPath.is_absolute.
  cbn [PurePosixPath.raw]. intros Hd (m & _ & Hin)%list_elem_of_In%in_flat_map.
  destruct (is_file h m); [|done]. destruct Hin as [<- | []]. cbn [snd].
  apply as_posix_relative. cbn [PurePosixPath.truediv PurePosixPath.raw].
  apply posix_join_relative; [by apply rstrip_relative|apply name_relative].
Qed.

Lemma literal_pair_relative self s d pr :
  PurePosixPath.is_absolute (Path d) = false →
  PyStr.startswith d (PyStr.chr backslash) = false →
  literal_pair self h s d = Returned pr → relative_uri (snd pr).
Proof.
  unfold relative_uri, PurePosixPath.is_absolute. cbn [PurePosixPath.raw].
  intros Hd Hb Hpair.
  assert (snd pr = PurePosixPath.as_posix (Path (PyStr.replace backslash slash d)))
    as ->.
  { unfold literal_pair in Hpair.
    destruct (PurePosixPath.is_absolute _); [by injection Hpair as <-|].
    destruct (get_config_dir self); [by injection Hpair as <-|done]. }
  by apply as_posix_relative, replace_relative.
Qed.

(** X12.  The destination URIs are relative, with one exception that
    the hypothesis sets aside: the [dest] of a literal entry must not
    start with a backslash.  A glob entry needs no such proviso. *)
Theorem expanded_uris_relative self :
  (∀ item, item ∈ files (config self) → has_glob_char (src item) = false →
     PyStr.startswith (dest item) (PyStr.chr backslash) = false) →
  ∀ pr, pr ∈ yielded (_expand_items self h) → relative_uri (snd pr).
Proof.
  unfold _expand_items. generalize (files (config self)) as items.
  induction items as [|item items IH]; intros Hdest pr;
    cbn [expand_from yielded]; [by intros ?%elem_of_nil|].
  assert (∀ pr, pr ∈ yielded (expand_from self h items) → relative_uri (snd pr))
    as IH'.
  { apply IH. intros item' Hin. apply Hdest. by apply list_elem_of_further. }
  destruct (PurePosixPath.is_absolute (Path (dest item))) eqn:Habs;
    [by intros ?%elem_of_nil|].
  destruct (has_glob_char (src item)) eqn:Hglob.
  - destruct (negb _); [by intros ?%elem_of_nil|].
    destruct (glob_pattern _ _ _) as [pattern|e]; [|by intros ?%elem_of_nil].
    rewrite yielded_yield_all. intros [Hin | Hin]%elem_of_app; [|auto].
    by eapply glob_pairs_relative.
  - destruct (literal_pair self h (src item) (dest item)) as [pr'|e] eqn:Hpair;
      [|by intros ?%elem_of_nil].
    cbn [yielded]. intros [-> | Hin]%elem_of_cons; [|auto].
    eapply literal_pair_relative; [done| |done].
    apply Hdest; [apply list_elem_of_here|done].
Qed.

(** X13.  Every destination URI the expander yields is in the normal
    form of [PurePosixPath]: normalising it again, as MkDocs does
    before it files or looks up a path, gives the same string. *)
Theorem expanded_uris_normal self pr :
  pr ∈ yielded (_expand_items self h) →
  PurePosixPath.as_posix (Path (snd pr)) = snd pr.
Proof. destruct pr as [s u]. apply yielded_uri_key. Qed.

(** X14.  The URI of a literal entry holds no backslash: all of them
    are turned into slashes, and normalisation adds none. *)
Theorem literal_uris_without_backslash self :
  Forall (λ item, has_glob_char (src item) = false) (files (config self)) →
  ∀ pr, pr ∈ yielded (_expand_items self h) →
    PyStr.contains backslash (snd pr) = false.
Proof.
  unfold _expand_items. generalize (files (config self)) as items.
  induction 1 as [|item items Hlit _ IH]; intros pr;
    cbn [expand_from yielded]; [by intros ?%elem_of_nil|].
  destruct (PurePosixPath.is_absolute _); [by intros ?%elem_of_nil|].
  rewrite Hlit.
  destruct (literal_pair self h (src item) (dest item)) as [pr'|e] eqn:Hpair;
    [|by intros ?%elem_of_nil].
  cbn [yielded]. intros [-> | Hin]%elem_of_cons; [|auto].
  assert (snd pr' = PurePosixPath.as_posix
                      (Path (PyStr.replace backslash slash (dest item)))) as ->.
  { unfold literal_pair in Hpair.
    destruct (PurePosixPath.is_absolute _); [by injection Hpair as <-|].
    destruct (get_config_dir self); [by injection Hpair as <-|done]. }
  apply contains_as_posix; [done..|]. by apply contains_replace.
Qed.

Lemma append_assoc a b c : (a +:+ b) +:+ c = a +:+ b +:+ c.
Proof.
  induction a as [|x a IH]; [done|]. by rewrite !append_cons, IH.
Qed.

Lemma last_Forall_cons {A} (P : A → Prop) (x : A) (l : list A) (d : A) :
  Forall P (x :: l) → P (List.last (x :: l) d).
Proof.
  revert x. induction l as [|y l IH]; intros x Hall; [by inversion Hall|].
  change (P (List.last (y :: l) d)). apply IH. by inversion Hall.
Qed.

(** X15.  The URI of a glob match ends with the name of the matched
    file: its last component is the basename of the source. *)
Theorem glob_uri_keeps_name pattern d pr :
  PurePosixPath.is_absolute (Path d) = false →
  pr ∈ glob_pairs h pattern d →
  PurePosixPath.name (fst pr) ≠ "" →
  PurePosixPath.name (Path (snd pr)) = PurePosixPath.name (fst pr).
Proof.
  unfold glob_pairs, PurePosixPath.is_absolute. cbn [PurePosixPath.raw].
  intros Hd (m & _ & Hin)%list_elem_of_In%in_flat_map.
  destruct (is_file h m); [|done]. destruct Hin as [<- | []]. cbn [fst snd].
  set (n := PurePosixPath.name m). intros Hn.
  set (a := PyStr.rstrip [slash; backslash] d).
  assert (component n) as Hcomp.
  { subst n. unfold PurePosixPath.name in *.
    pose proof (parse_tail_components (PurePosixPath.raw m)) as Htail.
    destruct (snd (PurePosixPath.parse (PurePosixPath.raw m))) as [|w ws] eqn:E;
      [done|].
    by apply last_Forall_cons. }
  assert (PyStr.startswith a "/" = false) as Ha by by apply rstrip_relative.
  assert (∃ t0, Forall component t0 ∧
            PurePosixPath.parse (PurePosixPath.posix_join a n) = ("", t0 ++ [n]))
    as (t0 & Ht0 & Hparse).
  { assert (PyStr.startswith (PurePosixPath.posix_join a n) "/" = false) as Hrel
      by (apply posix_join_relative; [done|by apply component_relative]).
    unfold PurePosixPath.parse, PurePosixPath.splitroot. rewrite Hrel. cbn [negb].
    assert (PurePosixPath.posix_join a n = n
            ∨ ∃ a0, PurePosixPath.posix_join a n = a0 +:+ PyStr.chr slash +:+ n)
      as [-> | [a0 ->]].
    { unfold PurePosixPath.posix_join. rewrite component_relative by done.
      destruct (PyStr.eqb a "") eqn:E.
      - apply eqb_true in E. rewrite E. by left.
      - simpl. destruct (PyStr.endswith a "/") eqn:Hend.
        + apply endswith_slash_split in Hend as [a' ->]. right. exists a'.
          apply append_assoc.
        + right. by exists a. }
    - exists []. split; [done|]. destruct Hcomp as [Hk Hs].
      rewrite split_no_sep_id by done. by rewrite filter_cons_True.
    - exists (filter (λ x, Is_true (PurePosixPath.kept x)) (PyStr.split slash a0)).
      split; [apply filter_kept_components, split_no_sep|].
      destruct Hcomp as [Hk Hs].
      rewrite split_app, filter_kept_app, (split_no_sep_id _ n) by done.
      by rewrite (filter_cons_True _ n []). }
  unfold PurePosixPath.as_posix, PurePosixPath.str, PurePosixPath.truediv.
  cbn [PurePosixPath.raw]. unfold PurePosixPath.name at 1. cbn [PurePosixPath.raw].
  fold a. rewrite Hparse.
  rewrite parse_format_tail.
  - cbn [snd]. apply List.last_last.
  - by left.
  - by destruct t0.
  - apply Forall_app. split; [done|]. by constructor.
Qed.

Lemma replace_app old new a b :
  PyStr.replace old new (a +:+ b) = PyStr.replace old new a +:+ PyStr.replace old new b.
Proof. induction a as [|x a IH]; simpl; [done|]. by rewrite IH. Qed.

(** X16.  A literal entry takes a directory-style [dest] for a file
    name: a separator at the end of [dest] is dropped, so that [dest]
    with and without it expand alike. *)
Theorem literal_dest_trailing_separator self s d c rest :
  has_glob_char s = false →
  d ≠ "" →
  PyStr.startswith d "/" = false →
  PyStr.startswith d (PyStr.chr backslash) = false →
  c = slash ∨ c = backslash →
  expand_from self h ({| src := s; dest := d +:+ PyStr.chr c |} :: rest) =
  expand_from self h ({| src := s; dest := d |} :: rest).
Proof.
  intros Hlit Hne Hrel Hb Hc. cbn [expand_from src dest]. rewrite Hlit.
  unfold PurePosixPath.is_absolute at 1 2. cbn [PurePosixPath.raw].
  rewrite startswith_slash_app, Hrel.
  destruct (PyStr.eqb d "") eqn:E; [by apply eqb_true in E|].
  assert (PurePosixPath.as_posix (Path (PyStr.replace backslash slash (d +:+ PyStr.chr c)))
          = PurePosixPath.as_posix (Path (PyStr.replace backslash slash d))) as Huri.
  { rewrite replace_app.
    assert (PyStr.replace backslash slash (PyStr.chr c) = "/") as ->
      by by destruct Hc as [-> | ->].
    apply as_posix_trailing_slash; [|by apply replace_relative].
    by destruct d. }
  unfold literal_pair. by rewrite Huri.
Qed.

End UriProperties.

(** ** The watcher *)

Section WatchProperties.
Context (h : Host).

Lemma watch_all_accepted g server :
  fst (watch_all h g server) =
  {| server_oid := server_oid server;
     watched := watched server
                ++ accepted_prefix (refuses server) (existing_sources h g);
     refuses := refuses server |}.
Proof.
  revert server. induction g as [[s u] g IH| |e]; intros server;
    cbn [watch_all]; [|destruct server; simpl; by rewrite app_nil_r..].
  unfold existing_sources. cbn [yielded map List.filter fst].
  fold (existing_sources h g).
  destruct (exists_ h s) eqn:Hex; [|apply IH].
  cbn [map accepted_prefix]. unfold watch.
  destruct (refuses server (PurePosixPath.str s)) as [e|] eqn:Hr.
  - destruct server; simpl; by rewrite app_nil_r.
  - match goal with
    | |- context [watch_all h g ?s1] =>
        specialize (IH s1); destruct (watch_all h g s1) as [server' [[]|e]]
    end; simpl in *; rewrite IH; by rewrite <- app_assoc.
Qed.

(** X17.  One failing registration ends the watching: [on_serve]
    registers the expanded sources that exist, in order, up to the
    first one the watcher refuses, and none after it, and returns the
    server all the same. *)
Theorem on_serve_stops_at_first_refusal self server l1 p l2 e :
  existing_sources h (_expand_items self h) = l1 ++ p :: l2 →
  Forall (λ q, refuses server q = None) l1 →
  refuses server p = Some e →
  on_serve h self server =
    ({| server_oid := server_oid server;
        watched := watched server ++ l1;
        refuses := refuses server |}, Returned (server_oid server)).
Proof.
  intros Hsrc Hl1 Hp. unfold on_serve, on_serve_with, except_Exception_pass.
  pose proof (watch_all_accepted (_expand_items self h) server) as Hw.
  rewrite Hsrc in Hw.
  assert (accepted_prefix (refuses server) (l1 ++ p :: l2) = l1) as Hacc.
  { clear -Hl1 Hp. induction Hl1 as [|q l1 Hq _ IH]; simpl.
    - by rewrite Hp.
    - by rewrite Hq, IH. }
  rewrite Hacc in Hw.
  destruct (watch_all h (_expand_items self h) server) as [server' [[]|e']];
    simpl in *; by rewrite Hw.
Qed.

End WatchProperties.

(** ** The further properties at work on the fixtures *)

Section MoreWitnesses.
Import Fixtures.

Lemma well_formed_empty oid n :
  well_formed {| collection := {| files_oid := oid; _src_uris := ∅ |};
                 next_oid := n |}.
Proof. intros k f. simpl. by rewrite lookup_empty. Qed.

(** On a directory tree, every regular file exists. *)
Lemma posix_host_coherent t : coherent (PosixFS.host t).
Proof.
  intros p. simpl. unfold PosixFS.isfile, PosixFS.lexists.
  destruct (PosixFS.lstat t p) as [[]|]; [|done..].
  intros _. by apply bool_decide_eq_true.
Qed.

Lemma on_files_keeps_well_formed_witness :
  let h := PosixFS.host readme_tree in
  well_formed readme_heap
  ∧ well_formed (fst (on_files h (plugin [readme]) build_config readme_heap)).
Proof.
  intros h.
  assert (well_formed readme_heap) as Hwf.
  { apply (well_formed_singleton 0 existing_readme 2). simpl. lia. }
  split; [exact Hwf|].
  apply (on_files_keeps_well_formed h (plugin [readme]) build_config readme_heap Hwf).
Defined.

Lemma on_files_frame_witness :
  let h := PosixFS.host two_files_tree in
  well_formed readme_heap
  ∧ _src_uris (collection (fst (on_files h (plugin [a_to_x]) build_config readme_heap)))
      !! "external/README.md" = Some existing_readme.
Proof.
  intros h.
  assert (well_formed readme_heap) as Hwf.
  { apply (well_formed_singleton 0 existing_readme 2). simpl. lia. }
  split; [exact Hwf|].
  destruct (on_files_frame h (plugin [a_to_x]) build_config readme_heap Hwf)
    as [Hframe _].
  rewrite Hframe; [reflexivity|].
  vm_compute. intros Hin. repeat (apply elem_of_cons in Hin as [[=] | Hin]).
  by apply elem_of_nil in Hin.
Defined.

Lemma on_files_returns_iff_witness :
  let h := PosixFS.host two_files_tree in
  well_formed empty_heap
  ∧ ∃ hp' r, on_files h (plugin [a_to_x; b_to_x]) build_config empty_heap =
             (hp', Returned r).
Proof.
  intros h. pose proof (well_formed_empty 0 1) as Hwf. split; [exact Hwf|].
  destruct (on_files_returns_iff h (plugin [a_to_x; b_to_x]) build_config
              empty_heap Hwf) as [[_ Hreturns] _].
  apply Hreturns. split; [reflexivity|]. repeat constructor.
Defined.

Lemma on_files_twice_witness :
  let h := PosixFS.host two_files_tree in
  let self := plugin [a_to_x] in
  let hp1 := fst (on_files h self build_config empty_heap) in
  well_formed empty_heap
  ∧ on_files h self build_config empty_heap = (hp1, Returned 0)
  ∧ ∃ hp2, on_files h self build_config hp1 = (hp2, Returned 0).
Proof.
  intros h self hp1. pose proof (well_formed_empty 0 1) as Hwf.
  assert (on_files h self build_config empty_heap = (hp1, Returned 0)) as Hrun
    by (vm_compute; reflexivity).
  split; [exact Hwf|]. split; [exact Hrun|].
  destruct (on_files_twice h self build_config empty_heap hp1 0 Hwf Hrun)
    as (hp2 & Hagain & _).
  exists hp2. exact Hagain.
Defined.

Lemma expansion_error_after_staged_pairs_witness :
  let h := PosixFS.host two_files_tree in
  let self := plugin [a_to_x; bare_glob] in
  let pre := [(Path "/proj/a.txt", "x.txt")] in
  let hp1 := stage_list build_config empty_heap pre in
  _expand_items self h = yield_all pre (Throw (Exn ValueError "*.txt"))
  ∧ on_files h self build_config empty_heap = (hp1, Raised (Exn ValueError "*.txt")).
Proof.
  intros h self pre hp1.
  assert (_expand_items self h = yield_all pre (Throw (Exn ValueError "*.txt")))
    as Hgen by (vm_compute; reflexivity).
  split; [exact Hgen|].
  apply (expansion_error_after_staged_pairs h self build_config empty_heap pre
           (Exn ValueError "*.txt") hp1 1 Hgen).
  vm_compute. reflexivity.
Defined.



Lemma expansion_follows_configuration_order_witness :
  let h := PosixFS.host two_files_tree in
  yielded (_expand_items (plugin ([a_to_x] ++ [b_to_x])) h) =
  [(Path "/proj/a.txt", "x.txt"); (Path "/proj/b.txt", "x.txt")].
Proof.
  intros h.
  destruct (expansion_follows_configuration_order h (plugin ([a_to_x] ++ [b_to_x]))
              [a_to_x] [b_to_x] eq_refl) as [Hyielded _].
  rewrite Hyielded. reflexivity.
Defined.

Lemma glob_entry_sources_witness :
  let h := PosixFS.host assets_tree in
  has_glob_char (src assets_glob) = true
  ∧ ends_with_separator (dest assets_glob) = true
  ∧ ∃ pairs,
      expand_from (plugin [assets_glob]) h [assets_glob] = yield_all pairs Stop
      ∧ map fst pairs = [Path "/proj/assets/first.txt";
                         Path "/proj/assets/nested/second.txt"].
Proof.
  intros h. split; [reflexivity|]. split; [reflexivity|].
  destruct (glob_entry_sources h (plugin [assets_glob]) assets_glob [] (Path "/proj")
              eq_refl eq_refl eq_refl (or_intror eq_refl))
    as (pairs & Hgen & Hsrc & _).
  exists pairs. split; [exact Hgen|]. rewrite Hsrc. vm_compute. reflexivity.
Defined.

Lemma glob_entries_never_missing_witness :
  let h := PosixFS.host assets_tree in
  let self := plugin [assets_glob; bare_glob] in
  let hp' := fst (on_files h self build_config empty_heap) in
  coherent h
  ∧ on_files h self build_config empty_heap = (hp', Raised (Exn ValueError "*.txt"))
  ∧ exn_class (Exn ValueError "*.txt") ≠ FileNotFoundError.
Proof.
  intros h self hp'.
  assert (on_files h self build_config empty_heap =
          (hp', Raised (Exn ValueError "*.txt"))) as Hrun
    by (vm_compute; reflexivity).
  split; [apply posix_host_coherent|]. split; [exact Hrun|].
  apply (glob_entries_never_missing h self build_config empty_heap hp'
           (Exn ValueError "*.txt") (posix_host_coherent assets_tree)).
  - repeat constructor.
  - exact Hrun.
Defined.

Lemma staged_sources_are_watched_witness :
  let h := PosixFS.host two_files_tree in
  let self := plugin [a_to_x; b_to_x] in
  let hp' := fst (on_files h self build_config empty_heap) in
  well_formed empty_heap
  ∧ on_files h self build_config empty_heap = (hp', Returned 0)
  ∧ ∃ server',
      on_serve h self dummy_server = (server', Returned 7)
      ∧ watched server' = ["/proj/a.txt"; "/proj/b.txt"].
Proof.
  intros h self hp'. pose proof (well_formed_empty 0 1) as Hwf.
  assert (on_files h self build_config empty_heap = (hp', Returned 0)) as Hrun
    by (vm_compute; reflexivity).
  split; [exact Hwf|]. split; [exact Hrun|].
  destruct (staged_sources_are_watched h self build_config empty_heap hp' 0
              dummy_server Hwf Hrun (λ _, eq_refl))
    as (server' & Hserve & Hwatched & _).
  exists server'. split; [exact Hserve|]. rewrite Hwatched. reflexivity.
Defined.

Lemma expanded_uris_relative_witness :
  let h := PosixFS.host assets_tree in
  let self := plugin [a_to_x; assets_glob] in
  (∀ item, item ∈ files (config self) → has_glob_char (src item) = false →
     PyStr.startswith (dest item) (PyStr.chr backslash) = false)
  ∧ relative_uri "external/second.txt".
Proof.
  intros h self.
  assert (∀ item, item ∈ files (config self) → has_glob_char (src item) = false →
            PyStr.startswith (dest item) (PyStr.chr backslash) = false) as Hdest.
  { intros item Hin _. simpl in Hin.
    repeat (apply elem_of_cons in Hin as [-> | Hin]); [reflexivity..|].
    by apply elem_of_nil in Hin. }
  split; [exact Hdest|].
  apply (expanded_uris_relative h self Hdest
           (Path "/proj/assets/nested/second.txt", "external/second.txt")).
  vm_compute. do 2 apply list_elem_of_further. apply list_elem_of_here.
Defined.

Lemma expanded_uris_normal_witness :
  let h := PosixFS.host two_files_tree in
  (Path "/proj/a.txt", "external/a.txt") ∈ yielded (_expand_items (plugin [dotted_dest]) h)
  ∧ PurePosixPath.as_posix (Path "external/a.txt") = "external/a.txt".
Proof.
  intros h.
  assert ((Path "/proj/a.txt", "external/a.txt")
          ∈ yielded (_expand_items (plugin [dotted_dest]) h)) as Hin
    by (vm_compute; apply list_elem_of_here).
  split; [exact Hin|].
  apply (expanded_uris_normal h (plugin [dotted_dest]) _ Hin).
Defined.

Lemma literal_uris_without_backslash_witness :
  let h := PosixFS.host two_files_tree in
  Forall (λ item, has_glob_char (src item) = false) [dotted_dest]
  ∧ PyStr.contains backslash "external/a.txt" = false.
Proof.
  intros h.
  assert (Forall (λ item, has_glob_char (src item) = false) [dotted_dest]) as Hlit
    by repeat constructor.
  split; [exact Hlit|].
  apply (literal_uris_without_backslash h (plugin [dotted_dest]) Hlit
           (Path "/proj/a.txt", "external/a.txt")).
  vm_compute. apply list_elem_of_here.
Defined.

Lemma glob_uri_keeps_name_witness :
  let h := PosixFS.host assets_tree in
  let pr := (Path "/proj/assets/nested/second.txt", "external/second.txt") in
  pr ∈ glob_pairs h "/proj/assets/**/*.txt" "external/"
  ∧ PurePosixPath.name (Path "external/second.txt") = "second.txt".
Proof.
  intros h pr.
  assert (pr ∈ glob_pairs h "/proj/assets/**/*.txt" "external/") as Hin
    by (vm_compute; apply list_elem_of_further, list_elem_of_here).
  split; [exact Hin|].
  apply (glob_uri_keeps_name h "/proj/assets/**/*.txt" "external/" pr eq_refl Hin).
  vm_compute. intros [=].
Defined.

Lemma literal_dest_trailing_separator_witness :
  let h := PosixFS.host two_files_tree in
  expand_from (plugin []) h [{| src := "a.txt"; dest := "external/" |}] =
  expand_from (plugin []) h [{| src := "a.txt"; dest := "external" |}].
Proof.
  intros h.
  apply (literal_dest_trailing_separator h (plugin []) "a.txt" "external" slash []);
    [reflexivity | intros [=] | reflexivity | reflexivity | by left].
Defined.

Lemma on_serve_stops_at_first_refusal_witness :
  let h := PosixFS.host two_files_tree in
  let server := {| server_oid := 7; watched := [];
                   refuses := λ p, if PyStr.eqb p "/proj/b.txt"
                                   then Some (Exn (HostError "OSError") p) else None |} in
  let self := plugin [a_to_x; b_to_x; a_to_x] in
  existing_sources h (_expand_items self h) =
    ["/proj/a.txt"] ++ "/proj/b.txt" :: ["/proj/a.txt"]
  ∧ watched (fst (on_serve h self server)) = ["/proj/a.txt"]
  ∧ snd (on_serve h self server) = Returned 7.
Proof.
  intros h server self.
  assert (existing_sources h (_expand_items self h) =
          ["/proj/a.txt"] ++ "/proj/b.txt" :: ["/proj/a.txt"]) as Hsrc
    by (vm_compute; reflexivity).
  split; [exact Hsrc|].
  rewrite (on_serve_stops_at_first_refusal h self server ["/proj/a.txt"]
             "/proj/b.txt" ["/proj/a.txt"]
             (Exn (HostError "OSError") "/proj/b.txt") Hsrc).
  - split; reflexivity.
  - repeat constructor.
  - reflexivity.
Defined.

End MoreWitnesses.
